(** * vite-plugin-axon: the JSX attribute thunking pass

    A shallow embedding of [src/index.ts]: the call detector [containsCall],
    the skip classifier [shouldSkip], the [JSXAttribute] visitor handed to
    Babel's [traverse], and the plugin's [transform] hook, followed by the
    properties the specification states about them. *)

From Stdlib Require Import String Ascii List Bool Arith Lia.
Import ListNotations.
Open Scope string_scope.
Open Scope bool_scope.

(** * The program *)

(** ** The Babel AST, as far as the pass looks at it *)

(** [JSXAttribute.name] is a [JSXIdentifier] or a [JSXNamespacedName] whose
    [namespace] and [name] are both [JSXIdentifier]s; only their [name]
    strings are read. *)
Inductive JSXName : Type :=
| JSXIdentifier (name : string)
| JSXNamespacedName (namespace name : string).

(** Induction over [node] goes through the lists and options of child
    nodes. *)
Scheme All for list.
Scheme All for option.

(** A node of [@babel/types].  Every kind that [index.ts] tests with a
    [t.isXxx] guard has a constructor of its own; [OtherNode] stands for each of
    the remaining Babel kinds ([NewExpression], [SequenceExpression],
    [AssignmentExpression], [OptionalCallExpression], [JSXElement],
    statements, TypeScript nodes, ...), with its child nodes in visiting
    order.  Array holes are [None], as Babel's [null]. *)
Inductive node : Type :=
| CallExpression (callee : node) (arguments : list node)
| TemplateLiteral (quasis : list string) (expressions : list node)
| ConditionalExpression (test consequent alternate : node)
| LogicalExpression (operator : string) (left_ right_ : node)
| BinaryExpression (operator : string) (left_ right_ : node)
| UnaryExpression (operator : string) (argument : node)
| MemberExpression (object property : node) (computed : bool)
| ArrayExpression (elements : list (option node))
| ObjectExpression (properties : list node)
| ObjectProperty (key value : node) (computed shorthand : bool)
| ArrowFunctionExpression (params : list node) (body : node) (async : bool)
| FunctionExpression (id : option node) (params : list node) (body : node)
| JSXAttribute (name : JSXName) (value : option node)
| JSXExpressionContainer (expression : node)
| JSXEmptyExpression
| Identifier (name : string)
| StringLiteral (value : string)
| SpreadElement (argument : node)
| OtherNode (type : string) (children : list node).

(** The [t.isXxx] guards used by the pass: a test of the node's kind. *)
Definition isCallExpression (n : node) : bool :=
  match n with CallExpression _ _ => true | _ => false end.

Definition isArrowFunctionExpression (n : node) : bool :=
  match n with ArrowFunctionExpression _ _ _ => true | _ => false end.

Definition isFunctionExpression (n : node) : bool :=
  match n with FunctionExpression _ _ _ => true | _ => false end.

Definition isJSXEmptyExpression (n : node) : bool :=
  match n with JSXEmptyExpression => true | _ => false end.

Definition isIdentifier (n : node) : bool :=
  match n with Identifier _ => true | _ => false end.

(** ** Call detector ([containsCall], index.ts 33-63) *)

Fixpoint containsCall (n : node) : bool :=
  match n with
  | CallExpression _ _ => true
  | TemplateLiteral _ expressions => existsb containsCall expressions
  | ConditionalExpression test consequent alternate =>
      containsCall test || containsCall consequent || containsCall alternate
  | LogicalExpression _ left_ right_ => containsCall left_ || containsCall right_
  | BinaryExpression _ left_ right_ => containsCall left_ || containsCall right_
  | UnaryExpression _ argument => containsCall argument
  | MemberExpression object _ _ => containsCall object
  | ArrayExpression elements =>
      existsb (fun el => match el with
                         | Some el => containsCall el
                         | None => false
                         end) elements
  | ObjectExpression properties =>
      existsb (fun prop => match prop with
                           | ObjectProperty _ value _ _ => containsCall value
                           | _ => false
                           end) properties
  | _ => false
  end.

(** ** Skip classifier ([shouldSkip], index.ts 71-77) *)

(** A string is the sequence of its characters.  The pass compares names
    and identifiers with ASCII text only (["on"], ["ref"], [".jsx"],
    [".tsx"]), and uses a length only next to the ["on"] prefix test, so
    nothing depends on how a character outside ASCII is counted. *)

(** [s.startsWith(p)] *)
Definition startsWith (s p : string) : bool := String.prefix p s.

(** [s.endsWith(p)] *)
Definition endsWith (s p : string) : bool :=
  (String.length p <=? String.length s)%nat
  && String.eqb (substring (String.length s - String.length p) (String.length p) s) p.

Definition shouldSkip (attrName : string) (valueNode : node) : bool :=
  if startsWith attrName "on" && (2 <? String.length attrName)%nat then true
  else if String.eqb attrName "ref" then true
  else if isArrowFunctionExpression valueNode then true
  else if isFunctionExpression valueNode then true
  else false.

(** ** The rewrite driver ([traverse] with the [JSXAttribute] visitor,
       index.ts 109-135) *)

(** The one variable the visitor closes over is [changed]; a computation of
    the walk takes its current value and gives back the next one. *)
Definition Walk (A : Type) : Type := bool -> A * bool.

Definition ret {A : Type} (a : A) : Walk A := fun changed => (a, changed).

Definition bind {A B : Type} (m : Walk A) (k : A -> Walk B) : Walk B :=
  fun changed => let (a, changed') := m changed in k a changed'.

(** [changed = true] *)
Definition setChanged : Walk unit := fun _ => (tt, true).

Declare Scope walk_scope.
Delimit Scope walk_scope with walk.
Notation "x <- m ;; k" := (bind m (fun x => k))
  (at level 61, m at next level, right associativity) : walk_scope.
Notation "m ;;; k" := (bind m (fun _ => k))
  (at level 61, right associativity) : walk_scope.

(** [t.isJSXIdentifier(name) ? name.name
                             : `${name.namespace.name}:${name.name.name}`] *)
Definition attrNameOf (name : JSXName) : string :=
  match name with
  | JSXIdentifier name => name
  | JSXNamespacedName namespace name => namespace ++ ":" ++ name
  end.

(** [t.arrowFunctionExpression(params, body)]: the builder's [async]
    defaults to false. *)
Definition arrowFunctionExpression (params : list node) (body : node) : node :=
  ArrowFunctionExpression params body false.

(** The visitor, run on an attribute with [path.node = { name, value }]; it
    gives back the attribute as it stands after the visit. *)
Definition JSXAttribute_visitor (name : JSXName) (value : option node) : Walk node :=
  let attrName := attrNameOf name in
  match value with
  | Some (JSXExpressionContainer expr) =>
      if isJSXEmptyExpression expr then ret (JSXAttribute name value)
      else if shouldSkip attrName expr then ret (JSXAttribute name value)
      else if negb (containsCall expr) then ret (JSXAttribute name value)
      else (setChanged ;;;
            ret (JSXAttribute name
                   (Some (JSXExpressionContainer (arrowFunctionExpression [] expr)))))%walk
  | _ => ret (JSXAttribute name value)
  end.

(** Babel calls a visitor keyed [JSXAttribute] when it enters a node of that
    kind, and no other. *)
Definition enter (n : node) : Walk node :=
  match n with
  | JSXAttribute name value => JSXAttribute_visitor name value
  | _ => ret n
  end.

Section Children.
Variable visit : node -> Walk node.

Fixpoint visitList (l : list node) : Walk (list node) :=
  match l with
  | [] => ret []
  | x :: rest =>
      (x' <- visit x ;; rest' <- visitList rest ;; ret (x' :: rest'))%walk
  end.

Definition visitOption (o : option node) : Walk (option node) :=
  match o with
  | Some x => (x' <- visit x ;; ret (Some x'))%walk
  | None => ret None
  end.

Fixpoint visitOptionList (l : list (option node)) : Walk (list (option node)) :=
  match l with
  | [] => ret []
  | o :: rest =>
      (o' <- visitOption o ;; rest' <- visitOptionList rest ;; ret (o' :: rest'))%walk
  end.

(** The children of a node, visited in the order of Babel's [VISITOR_KEYS]
    and put back in place. *)
Definition traverseChildren (n : node) : Walk node :=
  (match n with
   | CallExpression callee arguments =>
       callee' <- visit callee ;; arguments' <- visitList arguments ;;
       ret (CallExpression callee' arguments')
   | TemplateLiteral quasis expressions =>
       expressions' <- visitList expressions ;;
       ret (TemplateLiteral quasis expressions')
   | ConditionalExpression test consequent alternate =>
       test' <- visit test ;; consequent' <- visit consequent ;;
       alternate' <- visit alternate ;;
       ret (ConditionalExpression test' consequent' alternate')
   | LogicalExpression operator l r =>
       l' <- visit l ;; r' <- visit r ;; ret (LogicalExpression operator l' r')
   | BinaryExpression operator l r =>
       l' <- visit l ;; r' <- visit r ;; ret (BinaryExpression operator l' r')
   | UnaryExpression operator argument =>
       argument' <- visit argument ;; ret (UnaryExpression operator argument')
   | MemberExpression object property computed =>
       object' <- visit object ;; property' <- visit property ;;
       ret (MemberExpression object' property' computed)
   | ArrayExpression elements =>
       elements' <- visitOptionList elements ;; ret (ArrayExpression elements')
   | ObjectExpression properties =>
       properties' <- visitList properties ;; ret (ObjectExpression properties')
   | ObjectProperty key value computed shorthand =>
       key' <- visit key ;; value' <- visit value ;;
       ret (ObjectProperty key' value' computed shorthand)
   | ArrowFunctionExpression params body async =>
       params' <- visitList params ;; body' <- visit body ;;
       ret (ArrowFunctionExpression params' body' async)
   | FunctionExpression id params body =>
       id' <- visitOption id ;; params' <- visitList params ;;
       body' <- visit body ;; ret (FunctionExpression id' params' body')
   | JSXAttribute name value =>
       value' <- visitOption value ;; ret (JSXAttribute name value')
   | JSXExpressionContainer expression =>
       expression' <- visit expression ;; ret (JSXExpressionContainer expression')
   | JSXEmptyExpression => ret JSXEmptyExpression
   | Identifier name => ret (Identifier name)
   | StringLiteral value => ret (StringLiteral value)
   | SpreadElement argument =>
       argument' <- visit argument ;; ret (SpreadElement argument')
   | OtherNode type children =>
       children' <- visitList children ;; ret (OtherNode type children')
   end)%walk.
End Children.

(** Whether the visitor rewrites an attribute of this name whose container
    holds [expr]: none of its three early returns is taken. *)
Definition wraps (name : JSXName) (expr : node) : bool :=
  negb (isJSXEmptyExpression expr)
  && negb (shouldSkip (attrNameOf name) expr)
  && containsCall expr.

(** The walk of [traverse(ast, { JSXAttribute })], once Babel's scope
    registration has gone through (see [Crawl] below): each node is
    entered, then the children of the node as the visitor left it are
    traversed.  Under a
    rewritten attribute those are the container, the new arrow function
    (no parameters) and the original expression as its body, which is why
    the recursion below goes straight to [expr]; [traverse_unfold] states
    the enter-then-children reading for every node. *)
Fixpoint traverse (n : node) : Walk node :=
  match n with
  | JSXAttribute name (Some (JSXExpressionContainer expr)) =>
      if wraps name expr then
        (setChanged ;;;
         expr' <- traverse expr ;;
         ret (JSXAttribute name
                (Some (JSXExpressionContainer (ArrowFunctionExpression [] expr' false)))))%walk
      else
        (expr' <- traverse expr ;;
         ret (JSXAttribute name (Some (JSXExpressionContainer expr'))))%walk
  | _ => traverseChildren traverse n
  end.


(** ** The plugin's [transform] hook (index.ts 94-141) *)

(** The [{ code, map }] pair that [generate] gives and [transform] returns. *)
Module Result.
Record t (SourceMap : Type) : Type := { code : string; map : SourceMap }.
Arguments Build_t {SourceMap} code map.
Arguments code {SourceMap} t.
Arguments map {SourceMap} t.
End Result.

Section Host.
Variable SourceMap : Type.

(** A run of the hook, with its calls into Babel made explicit.
    [Parse code k] is [parse(code, { sourceType: 'module', plugins: ['jsx',
    'typescript'] })] inside the [try]: the continuation gets [Some ast], or
    [None] when the parser threw and the [catch] branch runs.
    [Crawl ast k] is the first thing [traverse(ast, ...)] does: before it
    calls any visitor Babel registers the declarations of the program in
    its scopes, and throws a [TypeError] when it takes one for a duplicate;
    the continuation gets [true] when the registration went through and
    [false] when it threw.  [Generate ast retainLines code k] is
    [generate(ast, { retainLines }, code)], which is given no other option.
    [Throw] is an exception that leaves the hook: line 111 is outside the
    [try]. *)
Inductive Host (R : Type) : Type :=
| Return (r : R)
| Throw
| Parse (code : string) (k : option node -> Host R)
| Crawl (ast : node) (k : bool -> Host R)
| Generate (ast : node) (retainLines : bool) (code : string)
           (k : Result.t SourceMap -> Host R).

Arguments Return {R} r.
Arguments Throw {R}.
Arguments Parse {R} code k.
Arguments Crawl {R} ast k.
Arguments Generate {R} ast retainLines code k.

(** [transform(code, id)]; [None] is the hook's [null]. *)
Definition transform (code id : string) : Host (option (Result.t SourceMap)) :=
  if negb (endsWith id ".jsx") && negb (endsWith id ".tsx") then Return None
  else
    Parse code (fun parsed =>
      match parsed with
      | None => Return None
      | Some ast =>
          Crawl ast (fun registered =>
            if negb registered then Throw
            else
              let (ast', changed) := traverse ast false in
              if negb changed then Return None
              else
                Generate ast' true code (fun result =>
                  Return (Some {| Result.code := Result.code result;
                                  Result.map := Result.map result |})))
      end).

(** How a run ends: the hook returns, or an exception leaves it. *)
Inductive Outcome (R : Type) : Type :=
| Returned (r : R)
| Thrown.

Arguments Returned {R} r.
Arguments Thrown {R}.

(** A run against a given parser, scope registration and generator. *)
Fixpoint run {R : Type}
    (parse : string -> option node)
    (crawl : node -> bool)
    (generate : node -> bool -> string -> Result.t SourceMap)
    (p : Host R) : Outcome R :=
  match p with
  | Return r => Returned r
  | Throw => Thrown
  | Parse code k => run parse crawl generate (k (parse code))
  | Crawl ast k => run parse crawl generate (k (crawl ast))
  | Generate ast retainLines code k =>
      run parse crawl generate (k (generate ast retainLines code))
  end.

(** The number of times a run calls the parser. *)
Fixpoint parseCalls {R : Type}
    (parse : string -> option node)
    (crawl : node -> bool)
    (generate : node -> bool -> string -> Result.t SourceMap)
    (p : Host R) : nat :=
  match p with
  | Return _ => 0
  | Throw => 0
  | Parse code k => S (parseCalls parse crawl generate (k (parse code)))
  | Crawl ast k => parseCalls parse crawl generate (k (crawl ast))
  | Generate ast retainLines code k =>
      parseCalls parse crawl generate (k (generate ast retainLines code))
  end.
End Host.

Arguments Return {SourceMap R} r.
Arguments Throw {SourceMap R}.
Arguments Parse {SourceMap R} code k.
Arguments Crawl {SourceMap R} ast k.
Arguments Generate {SourceMap R} ast retainLines code k.
Arguments transform {SourceMap} code id.
Arguments Returned {R} r.
Arguments Thrown {R}.
Arguments run {SourceMap R} parse crawl generate p.
Arguments parseCalls {SourceMap R} parse crawl generate p.

(** * Vocabulary of the specification *)

(** ** What the specification lists for the call detector (section 4.1) *)

(** The eight kinds the specification calls recursable. *)
Definition recursable (n : node) : bool :=
  match n with
  | TemplateLiteral _ _ | ConditionalExpression _ _ _
  | LogicalExpression _ _ _ | BinaryExpression _ _ _
  | UnaryExpression _ _ | MemberExpression _ _ _
  | ArrayExpression _ | ObjectExpression _ => true
  | _ => false
  end.

(** The elements of an array literal that are not holes. *)
Definition nonHoles (elements : list (option node)) : list node :=
  flat_map (fun el => match el with Some e => [e] | None => [] end) elements.

(** The values of the property entries of an object literal. *)
Definition propertyValues (properties : list node) : list node :=
  flat_map (fun prop => match prop with
                        | ObjectProperty _ value _ _ => [value]
                        | _ => []
                        end) properties.

(** The subtrees section 4.1 lists per recursable kind. *)
Definition checkedSubtrees (n : node) : list node :=
  match n with
  | TemplateLiteral _ expressions => expressions
  | ConditionalExpression test consequent alternate => [test; consequent; alternate]
  | LogicalExpression _ l r => [l; r]
  | BinaryExpression _ l r => [l; r]
  | UnaryExpression _ argument => [argument]
  | MemberExpression object _ _ => [object]
  | ArrayExpression elements => nonHoles elements
  | ObjectExpression properties => propertyValues properties
  | _ => []
  end.

(** The detector as an inductively defined judgement: the rules of
    section 4.1, one per listed subtree. *)
Inductive HasCall : node -> Prop :=
| HasCall_call callee arguments :
    HasCall (CallExpression callee arguments)
| HasCall_template quasis expressions e :
    In e expressions -> HasCall e -> HasCall (TemplateLiteral quasis expressions)
| HasCall_test test consequent alternate :
    HasCall test -> HasCall (ConditionalExpression test consequent alternate)
| HasCall_consequent test consequent alternate :
    HasCall consequent -> HasCall (ConditionalExpression test consequent alternate)
| HasCall_alternate test consequent alternate :
    HasCall alternate -> HasCall (ConditionalExpression test consequent alternate)
| HasCall_logical_left op l r : HasCall l -> HasCall (LogicalExpression op l r)
| HasCall_logical_right op l r : HasCall r -> HasCall (LogicalExpression op l r)
| HasCall_binary_left op l r : HasCall l -> HasCall (BinaryExpression op l r)
| HasCall_binary_right op l r : HasCall r -> HasCall (BinaryExpression op l r)
| HasCall_unary op argument : HasCall argument -> HasCall (UnaryExpression op argument)
| HasCall_member object property computed :
    HasCall object -> HasCall (MemberExpression object property computed)
| HasCall_array elements e :
    In (Some e) elements -> HasCall e -> HasCall (ArrayExpression elements)
| HasCall_object properties key value computed shorthand :
    In (ObjectProperty key value computed shorthand) properties ->
    HasCall value -> HasCall (ObjectExpression properties).

(** What [@babel/parser] builds for a shorthand entry [{a}] of an object
    literal: an [ObjectProperty] flagged [shorthand] whose value is the
    identifier itself. *)
Definition shorthandValuesAreIdentifiers (properties : list node) : Prop :=
  forall key value computed,
    In (ObjectProperty key value computed true) properties ->
    isIdentifier value = true.

(** ** What the pass does to a tree *)

(** The wrapped form the visitor gives an attribute. *)
Definition wrapped (name : JSXName) (body : node) : node :=
  JSXAttribute name
    (Some (JSXExpressionContainer (ArrowFunctionExpression [] body false))).

(** The tree the pass leaves behind, and the final value of [changed], for a
    walk that starts with [changed = false] as [transform] does. *)
Definition rewritten (n : node) : node := fst (traverse n false).
Definition changedBy (n : node) : bool := snd (traverse n false).

(** A walk [visit] that, on [x], returns [F x] and raises the flag when
    [G x], whatever the flag was. *)
Definition flagOnly (visit : node -> Walk node) (F : node -> node)
    (G : node -> bool) (x : node) : Prop :=
  forall changed, visit x changed = (F x, changed || G x).

(** ** The shape of a tree *)

Section Concat.
Variable B : Type.
Variable f : node -> list B.

Definition concatOption (o : option node) : list B :=
  match o with Some x => f x | None => [] end.

(** What [f] gives on each child of a node, in visiting order. *)
Definition concatChildren (n : node) : list B :=
  match n with
  | CallExpression callee arguments => f callee ++ flat_map f arguments
  | TemplateLiteral _ expressions => flat_map f expressions
  | ConditionalExpression test consequent alternate =>
      f test ++ f consequent ++ f alternate
  | LogicalExpression _ l r => f l ++ f r
  | BinaryExpression _ l r => f l ++ f r
  | UnaryExpression _ argument => f argument
  | MemberExpression object property _ => f object ++ f property
  | ArrayExpression elements => flat_map concatOption elements
  | ObjectExpression properties => flat_map f properties
  | ObjectProperty key value _ _ => f key ++ f value
  | ArrowFunctionExpression params body _ => flat_map f params ++ f body
  | FunctionExpression id params body =>
      concatOption id ++ flat_map f params ++ f body
  | JSXAttribute _ value => concatOption value
  | JSXExpressionContainer expression => f expression
  | JSXEmptyExpression => []
  | Identifier _ => []
  | StringLiteral _ => []
  | SpreadElement argument => f argument
  | OtherNode _ children => flat_map f children
  end.
End Concat.

Arguments concatOption {B} f o.
Arguments concatChildren {B} f n.

(** The child nodes of a node. *)
Definition childNodes (n : node) : list node := concatChildren (fun x => [x]) n.

(** A node and all the nodes below it, parents first. *)
Fixpoint subnodes (n : node) : list node := n :: concatChildren subnodes n.

(** A node with each child [x] replaced by [f x]. *)
Definition mapChildren (f : node -> node) (n : node) : node :=
  match n with
  | CallExpression callee arguments => CallExpression (f callee) (map f arguments)
  | TemplateLiteral quasis expressions => TemplateLiteral quasis (map f expressions)
  | ConditionalExpression test consequent alternate =>
      ConditionalExpression (f test) (f consequent) (f alternate)
  | LogicalExpression operator l r => LogicalExpression operator (f l) (f r)
  | BinaryExpression operator l r => BinaryExpression operator (f l) (f r)
  | UnaryExpression operator argument => UnaryExpression operator (f argument)
  | MemberExpression object property computed =>
      MemberExpression (f object) (f property) computed
  | ArrayExpression elements => ArrayExpression (map (option_map f) elements)
  | ObjectExpression properties => ObjectExpression (map f properties)
  | ObjectProperty key value computed shorthand =>
      ObjectProperty (f key) (f value) computed shorthand
  | ArrowFunctionExpression params body async =>
      ArrowFunctionExpression (map f params) (f body) async
  | FunctionExpression id params body =>
      FunctionExpression (option_map f id) (map f params) (f body)
  | JSXAttribute name value => JSXAttribute name (option_map f value)
  | JSXExpressionContainer expression => JSXExpressionContainer (f expression)
  | JSXEmptyExpression => JSXEmptyExpression
  | Identifier name => Identifier name
  | StringLiteral value => StringLiteral value
  | SpreadElement argument => SpreadElement (f argument)
  | OtherNode type children => OtherNode type (map f children)
  end.

(** Whether a node is an attribute the visitor rewrites. *)
Definition qualifies (n : node) : bool :=
  match n with
  | JSXAttribute name (Some (JSXExpressionContainer expr)) => wraps name expr
  | _ => false
  end.

(** The attributes of a tree that the pass rewrites. *)
Definition rewrittenAttributes (ast : node) : list node :=
  filter qualifies (subnodes ast).

(** [Thunked n n']: [n'] is [n] except that some expressions held by the
    containers of rewritable attributes have been put inside a fresh
    zero-parameter arrow function. *)
Inductive Thunked : node -> node -> Prop :=
| Thunked_wrap name expr expr' :
    wraps name expr = true ->
    Thunked expr expr' ->
    Thunked (JSXAttribute name (Some (JSXExpressionContainer expr)))
            (wrapped name expr')
| Thunked_children n f :
    (forall x, In x (childNodes n) -> Thunked x (f x)) ->
    Thunked n (mapChildren f n).

(** ** The calls a run makes *)

(** A call to the parser or to the generator, with its arguments. *)
Inductive HostCall : Type :=
| ParseCall (code : string)
| GenerateCall (ast : node) (retainLines : bool) (code : string).

(** The calls to [parse] and [generate] a run makes, in order. *)
Fixpoint hostCalls {SourceMap R : Type}
    (parse : string -> option node)
    (crawl : node -> bool)
    (generate : node -> bool -> string -> Result.t SourceMap)
    (p : Host SourceMap R) : list HostCall :=
  match p with
  | Return _ => []
  | Throw => []
  | Parse code k => ParseCall code :: hostCalls parse crawl generate (k (parse code))
  | Crawl ast k => hostCalls parse crawl generate (k (crawl ast))
  | Generate ast retainLines code k =>
      GenerateCall ast retainLines code
      :: hostCalls parse crawl generate (k (generate ast retainLines code))
  end.

Definition isGenerateCall (c : HostCall) : bool :=
  match c with GenerateCall _ _ _ => true | ParseCall _ => false end.

(** The identifier ends in one of the two extensions the hook accepts. *)
Definition acceptedExtension (id : string) : Prop :=
  (exists stem, id = stem ++ ".jsx") \/ (exists stem, id = stem ++ ".tsx").

(** No node of the tree is a call expression. *)
Definition callFree (n : node) : Prop :=
  forall c, In c (subnodes n) -> isCallExpression c = false.

(** The name of a node that is an attribute. *)
Definition attributeName (n : node) : list JSXName :=
  match n with JSXAttribute name _ => [name] | _ => [] end.

(** The names of the attributes of a tree, in order. *)
Definition attributeNames (n : node) : list JSXName :=
  flat_map attributeName (subnodes n).

(** ** Comparing trees *)

Definition JSXName_eqb (a b : JSXName) : bool :=
  match a, b with
  | JSXIdentifier x, JSXIdentifier y => String.eqb x y
  | JSXNamespacedName n x, JSXNamespacedName m y => String.eqb n m && String.eqb x y
  | _, _ => false
  end.

Section Eqb.
Variable A : Type.
Variable eqb : A -> A -> bool.

Fixpoint list_eqb (l l' : list A) : bool :=
  match l, l' with
  | [], [] => true
  | x :: t, y :: t' => eqb x y && list_eqb t t'
  | _, _ => false
  end.

Definition option_eqb (o o' : option A) : bool :=
  match o, o' with
  | Some x, Some y => eqb x y
  | None, None => true
  | _, _ => false
  end.
End Eqb.

Arguments list_eqb {A} eqb l l'.
Arguments option_eqb {A} eqb o o'.

(** Whether two trees are the same tree. *)
Fixpoint node_eqb (x y : node) {struct x} : bool :=
  match x, y with
  | CallExpression c a, CallExpression c' a' =>
      node_eqb c c' && list_eqb node_eqb a a'
  | TemplateLiteral q es, TemplateLiteral q' es' =>
      list_eqb String.eqb q q' && list_eqb node_eqb es es'
  | ConditionalExpression t c a, ConditionalExpression t' c' a' =>
      node_eqb t t' && node_eqb c c' && node_eqb a a'
  | LogicalExpression op l r, LogicalExpression op' l' r' =>
      String.eqb op op' && node_eqb l l' && node_eqb r r'
  | BinaryExpression op l r, BinaryExpression op' l' r' =>
      String.eqb op op' && node_eqb l l' && node_eqb r r'
  | UnaryExpression op a, UnaryExpression op' a' =>
      String.eqb op op' && node_eqb a a'
  | MemberExpression o p c, MemberExpression o' p' c' =>
      node_eqb o o' && node_eqb p p' && Bool.eqb c c'
  | ArrayExpression els, ArrayExpression els' =>
      list_eqb (option_eqb node_eqb) els els'
  | ObjectExpression ps, ObjectExpression ps' => list_eqb node_eqb ps ps'
  | ObjectProperty k v c s, ObjectProperty k' v' c' s' =>
      node_eqb k k' && node_eqb v v' && Bool.eqb c c' && Bool.eqb s s'
  | ArrowFunctionExpression ps b a, ArrowFunctionExpression ps' b' a' =>
      list_eqb node_eqb ps ps' && node_eqb b b' && Bool.eqb a a'
  | FunctionExpression i ps b, FunctionExpression i' ps' b' =>
      option_eqb node_eqb i i' && list_eqb node_eqb ps ps' && node_eqb b b'
  | JSXAttribute n v, JSXAttribute n' v' =>
      JSXName_eqb n n' && option_eqb node_eqb v v'
  | JSXExpressionContainer e, JSXExpressionContainer e' => node_eqb e e'
  | JSXEmptyExpression, JSXEmptyExpression => true
  | Identifier n, Identifier n' => String.eqb n n'
  | StringLiteral v, StringLiteral v' => String.eqb v v'
  | SpreadElement a, SpreadElement a' => node_eqb a a'
  | OtherNode t cs, OtherNode t' cs' => String.eqb t t' && list_eqb node_eqb cs cs'
  | _, _ => false
  end.

(** * Sample inputs *)

(** [<div class={active() ? 'a' : 'b'} onClick={handleClick()} />] *)
Definition sampleAttributes : list node :=
  [JSXAttribute (JSXIdentifier "class")
     (Some (JSXExpressionContainer
              (ConditionalExpression (CallExpression (Identifier "active") [])
                 (StringLiteral "a") (StringLiteral "b"))));
   JSXAttribute (JSXIdentifier "onClick")
     (Some (JSXExpressionContainer (CallExpression (Identifier "handleClick") [])))].

Definition sampleElement (attributes : list node) : node :=
  OtherNode "JSXElement"
    [OtherNode "JSXOpeningElement" (OtherNode "JSXIdentifier" [] :: attributes)].

Definition sampleFile (attributes : list node) : node :=
  OtherNode "File"
    [OtherNode "Program" [OtherNode "ExpressionStatement" [sampleElement attributes]]].

Definition sampleSource : string :=
  "<div class={active() ? 'a' : 'b'} onClick={handleClick()} />".

Definition sampleOutput : string :=
  "<div class={() => active() ? 'a' : 'b'} onClick={handleClick()} />".

(** [<div class={() => active() ? 'a' : 'b'} onClick={handleClick()} />] *)
Definition sampleAttributesAfter : list node :=
  [JSXAttribute (JSXIdentifier "class")
     (Some (JSXExpressionContainer
              (ArrowFunctionExpression []
                 (ConditionalExpression (CallExpression (Identifier "active") [])
                    (StringLiteral "a") (StringLiteral "b")) false)));
   JSXAttribute (JSXIdentifier "onClick")
     (Some (JSXExpressionContainer (CallExpression (Identifier "handleClick") [])))].

(** [import { r } from './r'; const r = 1;]: with the [typescript] plugin
    the parser lets the import and the constant share a name, and the scope
    registration of [traverse] then throws
    [TypeError: Duplicate declaration "r"]. *)
Definition duplicateSource : string := "import { r } from './r'; const r = 1;".

Definition duplicateFile : node :=
  OtherNode "File"
    [OtherNode "Program"
       [OtherNode "ImportDeclaration"
          [OtherNode "ImportSpecifier" [Identifier "r"; Identifier "r"];
           StringLiteral "./r"];
        OtherNode "VariableDeclaration"
          [OtherNode "VariableDeclarator"
             [Identifier "r"; OtherNode "NumericLiteral" []]]]].

(** A parser that knows the three sample texts. *)
Definition sampleParse (code : string) : option node :=
  if String.eqb code sampleSource then Some (sampleFile sampleAttributes)
  else if String.eqb code sampleOutput then Some (sampleFile sampleAttributesAfter)
  else if String.eqb code duplicateSource then Some duplicateFile
  else None.

(** A scope registration that throws on the file with the duplicate. *)
Definition sampleCrawl (ast : node) : bool := negb (node_eqb ast duplicateFile).

(** A generator that prints the rewritten sample and nothing that parses
    for any other tree; called without [sourceMaps], it gives no map. *)
Definition sampleGenerate (ast : node) (retainLines : bool) (code : string)
  : Result.t (option string) :=
  if node_eqb ast (sampleFile sampleAttributesAfter)
  then {| Result.code := sampleOutput; Result.map := None |}
  else {| Result.code := ""; Result.map := None |}.

(** [{ ...f(), a, m() { return g() }, k: h() }] *)
Definition sampleProperties : list node :=
  [SpreadElement (CallExpression (Identifier "f") []);
   ObjectProperty (Identifier "a") (Identifier "a") false true;
   OtherNode "ObjectMethod" [Identifier "m"; CallExpression (Identifier "g") []];
   ObjectProperty (Identifier "k") (CallExpression (Identifier "h") []) false false].

(** [<input value={count} title="static" />] *)
Definition sampleCallFree : node :=
  sampleFile
    [JSXAttribute (JSXIdentifier "value")
       (Some (JSXExpressionContainer (Identifier "count")));
     JSXAttribute (JSXIdentifier "title") (Some (StringLiteral "static"))].

(** [<div>{count()}{...items()}</div>]: calls in children, no attribute. *)
Definition sampleChildrenOnly : node :=
  OtherNode "File"
    [OtherNode "Program"
       [OtherNode "ExpressionStatement"
          [OtherNode "JSXElement"
             [OtherNode "JSXOpeningElement" [OtherNode "JSXIdentifier" []];
              JSXExpressionContainer (CallExpression (Identifier "count") []);
              OtherNode "JSXSpreadChild" [CallExpression (Identifier "items") []]]]]].

(** * Properties *)

(** ** Reading the nested induction scheme *)

Lemma node_list_all (P : node -> Prop) (l : list node) :
  list_all node P l -> forall x, In x l -> P x.
Proof.
  induction 1 as [| a Ha l Hl IH]; intros x Hx; simpl in Hx; [contradiction |].
  destruct Hx as [<- | Hx]; auto.
Qed.

Lemma node_option_all (P : node -> Prop) (o : option node) :
  option_all node P o -> forall x, o = Some x -> P x.
Proof. destruct 1; intros x Hx; inversion Hx; subst; assumption. Qed.

Lemma node_list_option_all (P : node -> Prop) (l : list (option node)) :
  list_all (option node) (option_all node P) l ->
  forall x, In (Some x) l -> P x.
Proof.
  induction 1 as [| o Ho l Hl IH]; intros x Hx; simpl in Hx; [contradiction |].
  destruct Hx as [-> | Hx]; auto.
  now apply (node_option_all P (Some x)).
Qed.

(** Turns the induction hypotheses on child lists into pointwise ones. *)
Ltac pointwise_IH :=
  repeat match goal with
         | H : list_all node ?P ?l |- _ =>
             let H' := fresh H in
             pose proof (node_list_all P l H) as H'; clear H; rename H' into H
         | H : list_all (option node) (option_all node ?P) ?l |- _ =>
             let H' := fresh H in
             pose proof (node_list_option_all P l H) as H'; clear H; rename H' into H
         | H : option_all node ?P ?o |- _ =>
             let H' := fresh H in
             pose proof (node_option_all P o H) as H'; clear H; rename H' into H
         end; cbv beta in *.

(** ** Properties of the call detector *)

Lemma existsb_nonHoles (f : node -> bool) (elements : list (option node)) :
  existsb (fun el => match el with Some e => f e | None => false end) elements
  = existsb f (nonHoles elements).
Proof.
  induction elements as [| [e |] els IH]; simpl; auto.
  now rewrite IH.
Qed.

Lemma existsb_propertyValues (f : node -> bool) (properties : list node) :
  existsb (fun prop => match prop with
                       | ObjectProperty _ value _ _ => f value
                       | _ => false
                       end) properties
  = existsb f (propertyValues properties).
Proof.
  induction properties as [| p ps IH]; simpl; auto.
  rewrite IH. destruct p; simpl; auto.
Qed.

Lemma containsCall_checkedSubtrees (n : node) :
  recursable n = true ->
  containsCall n = existsb containsCall (checkedSubtrees n).
Proof.
  destruct n; simpl; try discriminate; intros _.
  - reflexivity.
  - now rewrite orb_false_r, orb_assoc.
  - now rewrite orb_false_r.
  - now rewrite orb_false_r.
  - now rewrite orb_false_r.
  - now rewrite orb_false_r.
  - apply existsb_nonHoles.
  - apply existsb_propertyValues.
Qed.

(** C1.  [containsCall] answers true exactly for a call expression, and for a
    node of one of the eight recursable kinds one of whose listed subtrees
    (template interpolations; test, consequent, alternate; left and right
    operand; unary operand; member object; non-hole array elements; values
    of object property entries) is itself answered true; for a node of any
    other kind (arrow functions and function expressions among them) it
    answers false. *)
Theorem containsCall_spec : forall n : node,
  (containsCall n = true <->
     isCallExpression n = true \/
     (recursable n = true /\
      exists s, In s (checkedSubtrees n) /\ containsCall s = true))
  /\ (isCallExpression n = false -> recursable n = false ->
      containsCall n = false).
Proof.
  intros n. split.
  - destruct (recursable n) eqn:Hr.
    + rewrite (containsCall_checkedSubtrees n Hr), existsb_exists.
      split.
      * intros H. right. split; [reflexivity | exact H].
      * intros [Hc | [_ H]]; [| exact H].
        destruct n; simpl in Hc, Hr; discriminate.
    + split.
      * intros H. left. destruct n; simpl in *; congruence.
      * intros [Hc | [Hf _]]; [| discriminate].
        destruct n; simpl in *; congruence.
  - intros Hc Hr. destruct n; simpl in *; congruence.
Qed.

Create HintDb detector.
#[local] Hint Constructors HasCall : detector.

Lemma In_nonHoles (e : node) (elements : list (option node)) :
  In e (nonHoles elements) <-> In (Some e) elements.
Proof.
  unfold nonHoles. rewrite in_flat_map. split.
  - intros [[x |] [Hin Hx]]; simpl in Hx; [| contradiction].
    destruct Hx as [-> | []]. exact Hin.
  - intros Hin. exists (Some e). split; [exact Hin | now left].
Qed.

Lemma In_propertyValues (v : node) (properties : list node) :
  In v (propertyValues properties) <->
  exists key computed shorthand,
    In (ObjectProperty key v computed shorthand) properties.
Proof.
  unfold propertyValues. rewrite in_flat_map. split.
  - intros [p [Hin Hp]].
    destruct p; simpl in Hp; try contradiction.
    destruct Hp as [-> | []]. eauto.
  - intros (key & computed & shorthand & Hin).
    eexists. split; [exact Hin | now left].
Qed.

(** The executable detector decides the judgement. *)
Lemma containsCall_HasCall : forall n : node, containsCall n = true <-> HasCall n.
Proof.
  enough (H : forall n,
             (containsCall n = true <-> HasCall n) /\
             (forall key value computed shorthand,
                 n = ObjectProperty key value computed shorthand ->
                 (containsCall value = true <-> HasCall value)))
    by (intros n; apply H).
  induction n as
    [ callee _ arguments _
    | quasis expressions IHes
    | test [IHt _] consequent [IHc _] alternate [IHa _]
    | op l [IHl _] r [IHr _]
    | op l [IHl _] r [IHr _]
    | op argument [IHarg _]
    | object [IHo _] property _ computed
    | elements IHels
    | properties IHps
    | key _ value [IHv _] computed shorthand
    | | | | | | | | | ];
    pointwise_IH;
    (split; [| try (intros; discriminate)]); simpl;
    try (split; [discriminate | intros Hcall; inversion Hcall]; fail).
  - split; auto with detector.
  - rewrite existsb_exists. split.
    + intros (e & Hin & He).
      apply HasCall_template with e; [| apply IHes]; assumption.
    + intros H. inversion H as [| ? ? e Hin He | | | | | | | | | | |]; subst.
      exists e. split; [| apply IHes]; assumption.
  - rewrite !orb_true_iff, IHt, IHc, IHa. split.
    + intros [[H | H] | H]; auto with detector.
    + intros H. inversion H; subst; auto.
  - rewrite orb_true_iff, IHl, IHr. split.
    + intros [H | H]; auto with detector.
    + intros H. inversion H; subst; auto.
  - rewrite orb_true_iff, IHl, IHr. split.
    + intros [H | H]; auto with detector.
    + intros H. inversion H; subst; auto.
  - rewrite IHarg. split; [auto with detector | intros H; now inversion H].
  - rewrite IHo. split; [auto with detector | intros H; now inversion H].
  - rewrite existsb_nonHoles, existsb_exists. split.
    + intros (e & Hin & He). apply In_nonHoles in Hin.
      apply HasCall_array with e; [assumption |].
      now apply (IHels _ Hin).
    + intros H. inversion H as [| | | | | | | | | | | ? e Hin He |]; subst.
      exists e. split; [now apply In_nonHoles |].
      now apply (IHels _ Hin).
  - rewrite existsb_propertyValues, existsb_exists. split.
    + intros (v & Hin & Hv). apply In_propertyValues in Hin.
      destruct Hin as (key & computed & shorthand & Hin).
      apply HasCall_object with key v computed shorthand; [assumption |].
      now apply (proj2 (IHps _ Hin) key v computed shorthand).
    + intros H.
      inversion H as [| | | | | | | | | | | | ? key v computed shorthand Hin Hv];
        subst.
      exists v. split.
      * apply In_propertyValues. eauto.
      * now apply (proj2 (IHps _ Hin) key v computed shorthand).
  - intros k v c s' Heq. inversion Heq; subst. exact IHv.
Qed.

(** Opaque kinds: the detector does not look into function bodies, spread
    arguments, computed member keys, or any kind outside its list. *)
Lemma containsCall_opaque (n : node) :
  isCallExpression n = false -> recursable n = false -> containsCall n = false.
Proof. destruct n; simpl; congruence. Qed.

Example containsCall_arrow_body :
  containsCall (ArrowFunctionExpression []
                  (CallExpression (Identifier "computeStyle") []) false) = false.
Proof. reflexivity. Qed.

Example containsCall_function_body :
  containsCall (FunctionExpression None []
                  (OtherNode "BlockStatement"
                     [OtherNode "ReturnStatement" [CallExpression (Identifier "f") []]]))
  = false.
Proof. reflexivity. Qed.

Example containsCall_new_expression :
  containsCall (OtherNode "NewExpression" [Identifier "Date"; CallExpression (Identifier "f") []])
  = false.
Proof. reflexivity. Qed.

Example containsCall_computed_key :
  containsCall (MemberExpression (Identifier "a") (CallExpression (Identifier "f") []) true)
  = false.
Proof. reflexivity. Qed.

Example containsCall_conditional_test :
  containsCall (ConditionalExpression (CallExpression (Identifier "active") [])
                  (StringLiteral "a") (StringLiteral "b")) = true.
Proof. reflexivity. Qed.

Example containsCall_array_hole :
  containsCall (ArrayExpression [None; Some (Identifier "x")]) = false
  /\ containsCall (ArrayExpression [None; Some (CallExpression (Identifier "f") [])]) = true.
Proof. split; reflexivity. Qed.

(** ** Properties of the skip classifier *)

Lemma startsWith_iff (s p : string) :
  startsWith s p = true <-> exists rest, s = p ++ rest.
Proof.
  unfold startsWith. revert s.
  induction p as [| a p IH]; intros s.
  - split; [intros _; now exists s | intros _; now destruct s].
  - destruct s as [| b s]; simpl.
    + split; [discriminate | intros [rest H]; discriminate].
    + destruct (ascii_dec a b) as [-> | Hab].
      * rewrite IH. split; intros [rest H]; exists rest.
        -- now rewrite H.
        -- now inversion H.
      * split; [discriminate |].
        intros [rest H]. inversion H. congruence.
Qed.

(** C3.  [shouldSkip name expr] is true exactly when one of the four rules
    holds: [name] begins with "on" and is longer than two characters, [name]
    is "ref", [expr] is an arrow function expression, or [expr] is a function
    expression (with or without a name); otherwise it is false. *)
Theorem shouldSkip_spec : forall (name : string) (expr : node),
  shouldSkip name expr = true <->
    ((exists rest, name = "on" ++ rest) /\ 2 < String.length name)
    \/ name = "ref"
    \/ (exists params body async, expr = ArrowFunctionExpression params body async)
    \/ (exists id params body, expr = FunctionExpression id params body).
Proof.
  intros name expr. unfold shouldSkip.
  destruct (startsWith name "on" && (2 <? String.length name)%nat) eqn:Hon.
  - apply andb_true_iff in Hon. destruct Hon as [Hp Hl].
    apply startsWith_iff in Hp. apply Nat.ltb_lt in Hl. tauto.
  - assert (Hno : ~ ((exists rest, name = "on" ++ rest) /\ 2 < String.length name)).
    { intros [Hp Hl]. apply startsWith_iff in Hp. apply Nat.ltb_lt in Hl.
      rewrite Hp, Hl in Hon. discriminate. }
    destruct (String.eqb_spec name "ref") as [Href | Href]; [tauto |].
    destruct expr; simpl;
      try (split; [discriminate |];
           intros [H | [H | [(? & ? & ? & H) | (? & ? & ? & H)]]];
           [tauto | tauto | discriminate | discriminate]).
    + split; [intros _ | reflexivity]. right. right. left. eauto.
    + split; [intros _ | reflexivity]. right. right. right. eauto.
Qed.

Example shouldSkip_online : shouldSkip "online" (Identifier "x") = true.
Proof. reflexivity. Qed.

Example shouldSkip_on : shouldSkip "on" (Identifier "x") = false.
Proof. reflexivity. Qed.

Example shouldSkip_reference : shouldSkip "reference" (Identifier "x") = false.
Proof. reflexivity. Qed.

(** ** Object literals *)

(** C7.  In an object literal as parsed, the detector answers true exactly
    when an ordinary (non-shorthand) property entry has a value it answers
    true on: spread entries, methods and shorthand entries never produce a
    match. *)
Theorem containsCall_object_entries : forall properties : list node,
  shorthandValuesAreIdentifiers properties ->
  (containsCall (ObjectExpression properties) = true <->
   exists key value computed,
     In (ObjectProperty key value computed false) properties /\
     containsCall value = true).
Proof.
  intros properties Hwf. simpl.
  rewrite existsb_propertyValues, existsb_exists. split.
  - intros (v & Hin & Hv). apply In_propertyValues in Hin.
    destruct Hin as (key & computed & [|] & Hin).
    + apply Hwf in Hin. destruct v; simpl in *; discriminate.
    + eauto.
  - intros (key & v & computed & Hin & Hv).
    exists v. split; [| exact Hv]. apply In_propertyValues. eauto.
Qed.

(** The sample object literal: only its entry [k: h()] matches. *)
Lemma containsCall_object_entries_witness :
  shorthandValuesAreIdentifiers sampleProperties
  /\ (containsCall (ObjectExpression sampleProperties) = true <->
      exists key value computed,
        In (ObjectProperty key value computed false) sampleProperties
        /\ containsCall value = true).
Proof.
  assert (Hwf : shorthandValuesAreIdentifiers sampleProperties).
  { intros key value computed Hin. unfold sampleProperties in Hin. simpl in Hin.
    destruct Hin as [H | [H | [H | [H | []]]]]; inversion H; subst; reflexivity. }
  split; [exact Hwf |].
  apply (containsCall_object_entries sampleProperties Hwf).
Defined.

Example containsCall_spread_only :
  containsCall (ObjectExpression [SpreadElement (CallExpression (Identifier "f") [])]) = false.
Proof. reflexivity. Qed.

Example containsCall_shorthand_only :
  containsCall (ObjectExpression [ObjectProperty (Identifier "a") (Identifier "a") false true])
  = false.
Proof. reflexivity. Qed.

(** The detector reads the value of every [ObjectProperty] and does not
    look at the [shorthand] flag: a node put together by hand with a call
    as the value of a shorthand entry, which no source text parses to, is
    answered true. *)
Example containsCall_shorthand_built_by_hand :
  containsCall
    (ObjectExpression
       [ObjectProperty (Identifier "a") (CallExpression (Identifier "a") []) false true])
  = true.
Proof. reflexivity. Qed.

(** ** Properties of the visitor *)

Lemma wraps_true_iff (name : JSXName) (expr : node) :
  wraps name expr = true <->
  expr <> JSXEmptyExpression /\
  shouldSkip (attrNameOf name) expr = false /\
  containsCall expr = true.
Proof.
  unfold wraps. rewrite !andb_true_iff, !negb_true_iff. split.
  - intros [[He Hs] Hc]. repeat split; auto.
    intros ->. discriminate.
  - intros (He & Hs & Hc). repeat split; auto.
    destruct expr; simpl; auto; congruence.
Qed.

(** The visitor's three early returns amount to the guard [wraps]. *)
Lemma JSXAttribute_visitor_container (name : JSXName) (expr : node) (changed : bool) :
  JSXAttribute_visitor name (Some (JSXExpressionContainer expr)) changed =
  if wraps name expr
  then (JSXAttribute name
          (Some (JSXExpressionContainer (ArrowFunctionExpression [] expr false))), true)
  else (JSXAttribute name (Some (JSXExpressionContainer expr)), changed).
Proof.
  unfold JSXAttribute_visitor, wraps.
  destruct (isJSXEmptyExpression expr); simpl; [reflexivity |].
  destruct (shouldSkip (attrNameOf name) expr); simpl; [reflexivity |].
  destruct (containsCall expr); reflexivity.
Qed.

(** C2.  The visitor replaces the attribute's expression by a thunk, and
    sets [changed], when the value is an expression container whose
    expression is not the empty placeholder, is not skipped by [shouldSkip]
    and contains a call; in every other case it leaves the attribute and
    the flag as they were. *)
Theorem JSXAttribute_visitor_spec : forall (name : JSXName) (value : option node),
  let qualifies expr :=
    value = Some (JSXExpressionContainer expr) /\
    expr <> JSXEmptyExpression /\
    shouldSkip (attrNameOf name) expr = false /\
    containsCall expr = true in
  (forall expr changed,
      qualifies expr ->
      JSXAttribute_visitor name value changed =
      (JSXAttribute name
         (Some (JSXExpressionContainer (ArrowFunctionExpression [] expr false))),
       true))
  /\ (forall changed,
         (forall expr, ~ qualifies expr) ->
         JSXAttribute_visitor name value changed = (JSXAttribute name value, changed)).
Proof.
  intros name value qualifies. split.
  - intros expr changed (-> & He & Hs & Hc).
    rewrite JSXAttribute_visitor_container.
    now rewrite (proj2 (wraps_true_iff name expr)).
  - intros changed Hnone.
    destruct value as [[] |]; try reflexivity.
    rewrite JSXAttribute_visitor_container.
    destruct (wraps name expression) eqn:Hw; [| reflexivity].
    apply wraps_true_iff in Hw. exfalso.
    apply (Hnone expression). split; [reflexivity | exact Hw].
Qed.

(** [disabled={isDisabled()}] *)
Example visitor_disabled :
  JSXAttribute_visitor (JSXIdentifier "disabled")
    (Some (JSXExpressionContainer (CallExpression (Identifier "isDisabled") []))) false
  = (JSXAttribute (JSXIdentifier "disabled")
       (Some (JSXExpressionContainer
                (ArrowFunctionExpression []
                   (CallExpression (Identifier "isDisabled") []) false))),
     true).
Proof. reflexivity. Qed.

(** [onClick={handleClick()}], [value={count}], [style={() => computeStyle()}],
    [title="static"], a bare [hidden], and an empty container. *)
Example visitor_unchanged :
  JSXAttribute_visitor (JSXIdentifier "onClick")
    (Some (JSXExpressionContainer (CallExpression (Identifier "handleClick") []))) false
  = (JSXAttribute (JSXIdentifier "onClick")
       (Some (JSXExpressionContainer (CallExpression (Identifier "handleClick") []))), false)
  /\ JSXAttribute_visitor (JSXIdentifier "value")
       (Some (JSXExpressionContainer (Identifier "count"))) false
     = (JSXAttribute (JSXIdentifier "value")
          (Some (JSXExpressionContainer (Identifier "count"))), false)
  /\ JSXAttribute_visitor (JSXIdentifier "style")
       (Some (JSXExpressionContainer
                (ArrowFunctionExpression []
                   (CallExpression (Identifier "computeStyle") []) false))) false
     = (JSXAttribute (JSXIdentifier "style")
          (Some (JSXExpressionContainer
                   (ArrowFunctionExpression []
                      (CallExpression (Identifier "computeStyle") []) false))), false)
  /\ JSXAttribute_visitor (JSXIdentifier "title") (Some (StringLiteral "static")) false
     = (JSXAttribute (JSXIdentifier "title") (Some (StringLiteral "static")), false)
  /\ JSXAttribute_visitor (JSXIdentifier "hidden") None false
     = (JSXAttribute (JSXIdentifier "hidden") None, false)
  /\ JSXAttribute_visitor (JSXIdentifier "x")
       (Some (JSXExpressionContainer JSXEmptyExpression)) false
     = (JSXAttribute (JSXIdentifier "x")
          (Some (JSXExpressionContainer JSXEmptyExpression)), false).
Proof. repeat split; reflexivity. Qed.

(** C9.  For a namespaced attribute the name handed to [shouldSkip] is the
    joined string [namespace:local]: the visitor's decision is the one
    [shouldSkip] gives on that string, and in particular the attribute is
    left alone whenever the joined string begins with "on" and is longer
    than two characters. *)
Theorem namespaced_attribute_skip :
  forall (namespace local : string) (value : option node) (changed : bool),
  let name := JSXNamespacedName namespace local in
  let joined := namespace ++ ":" ++ local in
  attrNameOf name = joined
  /\ (forall expr,
        value = Some (JSXExpressionContainer expr) ->
        JSXAttribute_visitor name value changed =
        if isJSXEmptyExpression expr || shouldSkip joined expr || negb (containsCall expr)
        then (JSXAttribute name value, changed)
        else (JSXAttribute name
                (Some (JSXExpressionContainer (ArrowFunctionExpression [] expr false))),
              true))
  /\ ((exists rest, joined = "on" ++ rest) ->
      2 < String.length joined ->
      JSXAttribute_visitor name value changed = (JSXAttribute name value, changed)).
Proof.
  intros namespace local value changed name joined.
  split; [reflexivity |]. split.
  - intros expr ->. unfold JSXAttribute_visitor. fold joined.
    change (attrNameOf name) with joined.
    destruct (isJSXEmptyExpression expr); simpl; [reflexivity |].
    destruct (shouldSkip joined expr); simpl; [reflexivity |].
    destruct (containsCall expr); reflexivity.
  - intros Hon Hlen.
    destruct value as [[] |]; try reflexivity.
    rewrite JSXAttribute_visitor_container.
    replace (wraps name expression) with false; [reflexivity |].
    symmetry. unfold wraps.
    replace (shouldSkip (attrNameOf name) expression) with true.
    + now rewrite andb_false_r.
    + change (attrNameOf name) with joined. unfold shouldSkip.
      apply startsWith_iff in Hon. apply Nat.ltb_lt in Hlen.
      now rewrite Hon, Hlen.
Qed.

(** [on:click={handler()}] is left as it is. *)
Example visitor_on_click_namespaced :
  JSXAttribute_visitor (JSXNamespacedName "on" "click")
    (Some (JSXExpressionContainer (CallExpression (Identifier "handler") []))) false
  = (JSXAttribute (JSXNamespacedName "on" "click")
       (Some (JSXExpressionContainer (CallExpression (Identifier "handler") []))), false).
Proof. reflexivity. Qed.

(** [xlink:href={url()}] is wrapped. *)
Example visitor_xlink_href :
  JSXAttribute_visitor (JSXNamespacedName "xlink" "href")
    (Some (JSXExpressionContainer (CallExpression (Identifier "url") []))) false
  = (JSXAttribute (JSXNamespacedName "xlink" "href")
       (Some (JSXExpressionContainer
                (ArrowFunctionExpression [] (CallExpression (Identifier "url") []) false))),
     true).
Proof. reflexivity. Qed.

(** C10.  The "on" prefix rule compares characters as they are: for an
    attribute whose name does not begin with lowercase "on" the rule does
    not apply, [shouldSkip] is decided by the other three rules alone, and
    when none of those applies and the expression contains a call the
    attribute is wrapped. *)
Theorem prefix_rule_case_sensitive :
  forall (name : JSXName) (expr : node) (changed : bool),
  ~ (exists rest, attrNameOf name = "on" ++ rest) ->
  shouldSkip (attrNameOf name) expr =
    (String.eqb (attrNameOf name) "ref"
     || isArrowFunctionExpression expr || isFunctionExpression expr)
  /\ (attrNameOf name <> "ref" ->
      isArrowFunctionExpression expr = false ->
      isFunctionExpression expr = false ->
      containsCall expr = true ->
      JSXAttribute_visitor name (Some (JSXExpressionContainer expr)) changed =
      (JSXAttribute name
         (Some (JSXExpressionContainer (ArrowFunctionExpression [] expr false))),
       true)).
Proof.
  intros name expr changed Hno.
  assert (Hp : startsWith (attrNameOf name) "on" = false).
  { destruct (startsWith (attrNameOf name) "on") eqn:E; [| reflexivity].
    exfalso. apply Hno. now apply startsWith_iff. }
  assert (Hs : shouldSkip (attrNameOf name) expr =
               (String.eqb (attrNameOf name) "ref"
                || isArrowFunctionExpression expr || isFunctionExpression expr)).
  { unfold shouldSkip. rewrite Hp. simpl.
    destruct (String.eqb (attrNameOf name) "ref"); [reflexivity |].
    destruct (isArrowFunctionExpression expr); [reflexivity |].
    destruct (isFunctionExpression expr); reflexivity. }
  split; [exact Hs |].
  intros Href Harrow Hfun Hcall.
  rewrite JSXAttribute_visitor_container.
  replace (wraps name expr) with true; [reflexivity |].
  symmetry. apply wraps_true_iff. repeat split.
  - intros ->. discriminate.
  - rewrite Hs, Harrow, Hfun.
    apply String.eqb_neq in Href. now rewrite Href.
  - exact Hcall.
Qed.

(** [OnClick={handleClick()}] is wrapped. *)
Lemma prefix_rule_case_sensitive_witness :
  ~ (exists rest, attrNameOf (JSXIdentifier "OnClick") = "on" ++ rest)
  /\ JSXAttribute_visitor (JSXIdentifier "OnClick")
       (Some (JSXExpressionContainer (CallExpression (Identifier "handleClick") []))) false
     = (JSXAttribute (JSXIdentifier "OnClick")
          (Some (JSXExpressionContainer
                   (ArrowFunctionExpression []
                      (CallExpression (Identifier "handleClick") []) false))),
        true).
Proof.
  assert (Hno : ~ (exists rest, attrNameOf (JSXIdentifier "OnClick") = "on" ++ rest)).
  { intros [rest H]. simpl in H. discriminate. }
  split; [exact Hno |].
  apply (proj2 (prefix_rule_case_sensitive
                  (JSXIdentifier "OnClick")
                  (CallExpression (Identifier "handleClick") []) false Hno)).
  - simpl. discriminate.
  - reflexivity.
  - reflexivity.
  - reflexivity.
Defined.

(** ** The shape of a tree *)

Lemma flat_map_singleton {A : Type} (l : list A) : flat_map (fun x => [x]) l = l.
Proof. induction l as [| a l IH]; simpl; [| rewrite IH]; reflexivity. Qed.

Lemma flat_map_concatOption_singleton (l : list (option node)) :
  flat_map (concatOption (fun x => [x])) l = nonHoles l.
Proof. reflexivity. Qed.

Lemma concatOption_flat_map {B : Type} (f : node -> list B) (o : option node) :
  concatOption f o = flat_map f (concatOption (fun x => [x]) o).
Proof. destruct o; simpl; [now rewrite app_nil_r | reflexivity]. Qed.

Lemma flat_map_concatOption {B : Type} (f : node -> list B) (l : list (option node)) :
  flat_map (concatOption f) l = flat_map f (nonHoles l).
Proof.
  induction l as [| [x |] l IH]; simpl; [reflexivity | | exact IH].
  now rewrite IH.
Qed.

(** [concatChildren] is [flat_map] over the child nodes. *)
Lemma concatChildren_flat_map {B : Type} (f : node -> list B) (n : node) :
  concatChildren f n = flat_map f (childNodes n).
Proof.
  unfold childNodes.
  destruct n; simpl;
    rewrite ?flat_map_concatOption_singleton, ?flat_map_singleton,
            ?flat_map_app, ?app_nil_r, ?flat_map_concatOption;
    simpl; rewrite ?app_nil_r; try reflexivity.
  - rewrite (concatOption_flat_map f id). reflexivity.
  - apply concatOption_flat_map.
Qed.

Lemma subnodes_unfold (n : node) :
  subnodes n = n :: flat_map subnodes (childNodes n).
Proof. rewrite <- concatChildren_flat_map. destruct n; reflexivity. Qed.

Lemma subnodes_self (n : node) : In n (subnodes n).
Proof. rewrite subnodes_unfold. now left. Qed.

(** Induction on a node from its child nodes. *)
Lemma node_children_ind (P : node -> Prop) :
  (forall n, (forall c, In c (childNodes n) -> P c) -> P n) ->
  forall n, P n.
Proof.
  intros step.
  induction n; apply step; pointwise_IH; unfold childNodes; simpl;
    rewrite ?flat_map_concatOption_singleton, ?flat_map_singleton;
    intros c Hc;
    repeat (apply in_app_or in Hc; destruct Hc as [Hc | Hc]);
    simpl in Hc;
    repeat match goal with
           | H : _ \/ _ |- _ => destruct H as [<- | H]
           | H : False |- _ => contradiction
           | H : In _ (nonHoles _) |- _ => apply In_nonHoles in H
           end;
    eauto.
  - destruct id; simpl in Hc; [destruct Hc as [<- | []] | contradiction]; eauto.
  - destruct value; simpl in Hc; [destruct Hc as [<- | []] | contradiction]; eauto.
Qed.

(** Induction on a node from everything below it. *)
Lemma node_subnodes_ind (P : node -> Prop) :
  (forall n,
      (forall c x, In c (childNodes n) -> In x (subnodes c) -> P x) -> P n) ->
  forall n, P n.
Proof.
  intros step.
  enough (H : forall n x, In x (subnodes n) -> P x)
    by (intros n; apply (H n), subnodes_self).
  induction n as [n IH] using node_children_ind.
  intros x Hx. rewrite subnodes_unfold in Hx.
  destruct Hx as [<- | Hx].
  - apply step. intros c x Hc Hx. now apply (IH c).
  - apply in_flat_map in Hx. destruct Hx as (c & Hc & Hx). now apply (IH c).
Qed.

(** ** The walk *)

Section WalkChildren.
Variable visit : node -> Walk node.
Variable F : node -> node.
Variable G : node -> bool.

Lemma visitList_spec (l : list node) :
  (forall x, In x l -> flagOnly visit F G x) ->
  forall changed,
    visitList visit l changed = (map F l, changed || existsb G l).
Proof.
  induction l as [| a l IH]; intros H changed; simpl.
  - now rewrite orb_false_r.
  - unfold bind. rewrite (H a (or_introl eq_refl)).
    rewrite IH by (intros x Hx; apply H; now right).
    unfold ret. now rewrite orb_assoc.
Qed.

Lemma visitOption_spec (o : option node) :
  (forall x, o = Some x -> flagOnly visit F G x) ->
  forall changed,
    visitOption visit o changed =
    (option_map F o, changed || existsb G (concatOption (fun x => [x]) o)).
Proof.
  intros H changed. destruct o as [x |]; simpl.
  - unfold bind. rewrite (H x eq_refl). unfold ret. now rewrite orb_false_r.
  - unfold ret. now rewrite orb_false_r.
Qed.

Lemma visitOptionList_spec (l : list (option node)) :
  (forall x, In (Some x) l -> flagOnly visit F G x) ->
  forall changed,
    visitOptionList visit l changed =
    (map (option_map F) l, changed || existsb G (nonHoles l)).
Proof.
  induction l as [| o l IH]; intros H changed; simpl.
  - now rewrite orb_false_r.
  - unfold bind.
    rewrite visitOption_spec by (intros x ->; apply H; now left).
    rewrite IH by (intros x Hx; apply H; now right).
    unfold ret. rewrite existsb_app, orb_assoc. reflexivity.
Qed.

(** Visiting the children rebuilds the node around what [visit] returned
    and raises the flag when a child raised it. *)
Lemma traverseChildren_spec (n : node) :
  (forall c, In c (childNodes n) -> flagOnly visit F G c) ->
  forall changed,
    traverseChildren visit n changed =
    (mapChildren F n, changed || existsb G (childNodes n)).
Proof.
  unfold childNodes.
  destruct n; simpl; intros H changed; unfold bind, ret;
    rewrite ?flat_map_concatOption_singleton, ?flat_map_singleton in *;
    repeat first
      [ rewrite visitList_spec
          by (intros x Hx; apply H; rewrite ?in_app_iff; simpl; auto)
      | rewrite visitOptionList_spec by (intros x Hx; apply H; now apply In_nonHoles)
      | rewrite visitOption_spec
          by (intros x ->; apply H; rewrite ?in_app_iff; simpl; auto)
      | match goal with
        | |- context [visit ?x ?c] =>
            rewrite (H x) by (rewrite ?in_app_iff; simpl; auto 6)
        end ];
    rewrite ?existsb_app; simpl; rewrite ?orb_false_r, ?orb_assoc;
    reflexivity.
Qed.
End WalkChildren.

Lemma traverse_not_qualifies (n : node) (changed : bool) :
  qualifies n = false ->
  traverse n changed = traverseChildren traverse n changed.
Proof.
  destruct n; try reflexivity.
  destruct value as [[] |]; try reflexivity.
  simpl. intros ->. unfold bind, ret.
  destruct (traverse expression changed). reflexivity.
Qed.

(** [traverse] enters a node, running the visitor on an attribute, and
    then walks the children of the node the visitor left. *)
Lemma traverse_unfold (n : node) (changed : bool) :
  traverse n changed =
  (n1 <- enter n ;; traverseChildren traverse n1)%walk changed.
Proof.
  destruct n; try reflexivity.
  destruct value as [[] |]; try reflexivity.
  unfold bind, enter. rewrite JSXAttribute_visitor_container. simpl.
  destruct (wraps name expression); simpl; unfold bind, ret, setChanged.
  - destruct (traverse expression true). reflexivity.
  - destruct (traverse expression changed). reflexivity.
Qed.

(** The result tree does not depend on the incoming flag, and the flag is
    only ever raised. *)
Lemma traverse_state : forall (n : node) (changed : bool),
  traverse n changed = (rewritten n, changed || changedBy n).
Proof.
  induction n as [n IH] using node_subnodes_ind.
  assert (IHc : forall c, In c (childNodes n) -> flagOnly traverse rewritten changedBy c).
  { intros c Hc changed. apply (IH c c Hc), subnodes_self. }
  destruct (qualifies n) eqn:Hq.
  - destruct n; try discriminate.
    destruct value as [[] |]; try discriminate.
    simpl in Hq. intros changed.
    assert (He : forall changed,
               traverse expression changed =
               (rewritten expression, changed || changedBy expression)).
    { apply (IH (JSXExpressionContainer expression)).
      - now left.
      - simpl. right. apply subnodes_self. }
    unfold rewritten, changedBy. simpl. rewrite Hq.
    unfold bind, ret, setChanged. rewrite !He. simpl.
    now rewrite orb_true_r.
  - intros changed.
    unfold rewritten, changedBy.
    rewrite !(traverse_not_qualifies n _ Hq).
    rewrite !(traverseChildren_spec traverse rewritten changedBy n IHc).
    reflexivity.
Qed.

Lemma traverse_children_flagOnly (n c : node) :
  In c (childNodes n) -> flagOnly traverse rewritten changedBy c.
Proof. intros _ changed. apply traverse_state. Qed.

Lemma rewritten_not_qualifies (n : node) :
  qualifies n = false -> rewritten n = mapChildren rewritten n.
Proof.
  intros Hq. unfold rewritten at 1.
  rewrite (traverse_not_qualifies n _ Hq).
  now rewrite (traverseChildren_spec traverse rewritten changedBy n
                 (traverse_children_flagOnly n)).
Qed.

Lemma changedBy_not_qualifies (n : node) :
  qualifies n = false -> changedBy n = existsb changedBy (childNodes n).
Proof.
  intros Hq. unfold changedBy at 1.
  rewrite (traverse_not_qualifies n _ Hq).
  now rewrite (traverseChildren_spec traverse rewritten changedBy n
                 (traverse_children_flagOnly n)).
Qed.

Lemma rewritten_wrapped (name : JSXName) (expr : node) :
  wraps name expr = true ->
  rewritten (JSXAttribute name (Some (JSXExpressionContainer expr)))
  = wrapped name (rewritten expr).
Proof.
  intros Hw. unfold rewritten at 1. simpl. rewrite Hw.
  unfold bind, ret, setChanged. now rewrite traverse_state.
Qed.

Lemma changedBy_wrapped (name : JSXName) (expr : node) :
  wraps name expr = true ->
  changedBy (JSXAttribute name (Some (JSXExpressionContainer expr))) = true.
Proof.
  intros Hw. unfold changedBy. simpl. rewrite Hw.
  unfold bind, ret, setChanged. now rewrite traverse_state.
Qed.

(** The flag ends up raised exactly when some attribute of the tree is one
    the visitor rewrites. *)
Lemma changedBy_subnodes : forall n : node,
  changedBy n = existsb qualifies (subnodes n).
Proof.
  induction n as [n IH] using node_children_ind.
  rewrite subnodes_unfold. simpl.
  destruct (qualifies n) eqn:Hq; simpl.
  - destruct n; try discriminate.
    destruct value as [[] |]; try discriminate.
    now apply changedBy_wrapped.
  - rewrite (changedBy_not_qualifies n Hq).
    induction (childNodes n) as [| c l IHl]; simpl; [reflexivity |].
    rewrite existsb_app, <- IH by now left.
    rewrite IHl; [reflexivity |].
    intros x Hx. apply IH. now right.
Qed.

Lemma changedBy_false_iff (n : node) :
  changedBy n = false <-> rewrittenAttributes n = [].
Proof.
  rewrite changedBy_subnodes. unfold rewrittenAttributes.
  induction (subnodes n) as [| a l IH]; simpl; [tauto |].
  destruct (qualifies a); simpl; [| exact IH].
  split; discriminate.
Qed.

(** ** What the pass preserves *)

Lemma wraps_arrow (name : JSXName) (params : list node) (body : node) (async : bool) :
  wraps name (ArrowFunctionExpression params body async) = false.
Proof.
  unfold wraps, shouldSkip. simpl.
  destruct (startsWith (attrNameOf name) "on" && _); simpl; [reflexivity |].
  destruct (String.eqb (attrNameOf name) "ref"); reflexivity.
Qed.

(** The pass keeps the kind of every node: the one node it puts in the
    place of another is the arrow function, inside a container. *)
Lemma rewritten_cases (n : node) :
  rewritten n = mapChildren rewritten n
  \/ exists name expr,
       n = JSXAttribute name (Some (JSXExpressionContainer expr)) /\
       wraps name expr = true /\
       rewritten n = wrapped name (rewritten expr).
Proof.
  destruct (qualifies n) eqn:Hq.
  - right. destruct n; try discriminate.
    destruct value as [[] |]; try discriminate.
    exists name, expression. repeat split; [exact Hq |].
    now apply rewritten_wrapped.
  - left. now apply rewritten_not_qualifies.
Qed.

Lemma rewritten_property_value (p : node) :
  match rewritten p with
  | ObjectProperty _ value _ _ => containsCall value
  | _ => false
  end
  = match p with
    | ObjectProperty _ value _ _ => containsCall (rewritten value)
    | _ => false
    end.
Proof.
  destruct (rewritten_cases p) as [-> | (name & expr & -> & _ & ->)];
    [destruct p |]; reflexivity.
Qed.

Lemma existsb_map_ext {A B : Type} (f : B -> bool) (g : A -> B) (h : A -> bool)
      (l : list A) :
  (forall x, In x l -> f (g x) = h x) ->
  existsb f (map g l) = existsb h l.
Proof.
  induction l as [| a l IH]; intros H; simpl; [reflexivity |].
  rewrite (H a) by now left.
  rewrite IH; [reflexivity |].
  intros x Hx. apply H. now right.
Qed.

Lemma containsCall_rewritten : forall n : node,
  containsCall (rewritten n) = containsCall n.
Proof.
  induction n as [n IH] using node_subnodes_ind.
  destruct (rewritten_cases n) as [-> | (name & expr & -> & _ & ->)];
    [| reflexivity].
  assert (IHc : forall c, In c (childNodes n) ->
                          containsCall (rewritten c) = containsCall c).
  { intros c Hc. apply (IH c c Hc), subnodes_self. }
  unfold childNodes in IHc.
  destruct n; simpl in *; try reflexivity;
    rewrite ?flat_map_singleton in IHc;
    rewrite ?IHc by (simpl; auto); try reflexivity.
  - apply existsb_map_ext. exact IHc.
  - apply existsb_map_ext. intros [x |] Hx; simpl; [| reflexivity].
    apply IHc. now apply In_nonHoles.
  - apply existsb_map_ext. intros p Hp.
    rewrite rewritten_property_value.
    destruct p; try reflexivity.
    apply (IH (ObjectProperty p1 p2 computed shorthand)).
    + unfold childNodes. simpl. now rewrite flat_map_singleton.
    + simpl. right. apply in_or_app. right. apply subnodes_self.
Qed.

Lemma isArrowFunctionExpression_rewritten (n : node) :
  isArrowFunctionExpression (rewritten n) = isArrowFunctionExpression n.
Proof.
  destruct (rewritten_cases n) as [-> | (name & expr & -> & _ & ->)];
    [destruct n |]; reflexivity.
Qed.

Lemma isFunctionExpression_rewritten (n : node) :
  isFunctionExpression (rewritten n) = isFunctionExpression n.
Proof.
  destruct (rewritten_cases n) as [-> | (name & expr & -> & _ & ->)];
    [destruct n |]; reflexivity.
Qed.

Lemma isJSXEmptyExpression_rewritten (n : node) :
  isJSXEmptyExpression (rewritten n) = isJSXEmptyExpression n.
Proof.
  destruct (rewritten_cases n) as [-> | (name & expr & -> & _ & ->)];
    [destruct n |]; reflexivity.
Qed.

Lemma shouldSkip_rewritten (attrName : string) (n : node) :
  shouldSkip attrName (rewritten n) = shouldSkip attrName n.
Proof.
  unfold shouldSkip.
  now rewrite isArrowFunctionExpression_rewritten, isFunctionExpression_rewritten.
Qed.

(** The visitor's decision on an attribute does not change when the pass
    has already run below it. *)
Lemma wraps_rewritten (name : JSXName) (expr : node) :
  wraps name (rewritten expr) = wraps name expr.
Proof.
  unfold wraps.
  now rewrite isJSXEmptyExpression_rewritten, shouldSkip_rewritten,
              containsCall_rewritten.
Qed.

(** After the pass no attribute is left that the visitor would rewrite. *)
Lemma qualifies_rewritten (n : node) : qualifies (rewritten n) = false.
Proof.
  destruct (rewritten_cases n) as [Hn | (name & expr & -> & _ & ->)].
  - destruct (qualifies n) eqn:Hq.
    + destruct n; try discriminate.
      destruct value as [[] |]; try discriminate.
      rewrite (rewritten_wrapped _ _ Hq). simpl. apply wraps_arrow.
    + rewrite Hn. destruct n; try reflexivity.
      destruct value as [v |]; [| reflexivity].
      simpl.
      destruct (rewritten_cases v) as [-> | (name' & expr' & -> & _ & ->)];
        [| reflexivity].
      destruct v; try reflexivity.
      simpl. rewrite wraps_rewritten. exact Hq.
  - simpl. apply wraps_arrow.
Qed.

Lemma childNodes_mapChildren (f : node -> node) (n : node) :
  childNodes (mapChildren f n) = map f (childNodes n).
Proof.
  unfold childNodes.
  destruct n; simpl;
    rewrite ?flat_map_concatOption_singleton, ?flat_map_singleton, ?map_app;
    simpl; try reflexivity.
  - unfold nonHoles. induction elements as [| [x |] l IH]; simpl; congruence.
  - destruct id; reflexivity.
  - destruct value; reflexivity.
Qed.

Lemma option_map_ext_in {A B : Type} (f g : A -> B) (o : option A) :
  (forall x, o = Some x -> f x = g x) -> option_map f o = option_map g o.
Proof. destruct o; simpl; intros H; [now rewrite (H a) | reflexivity]. Qed.

Lemma mapChildren_ext (f g : node -> node) (n : node) :
  (forall c, In c (childNodes n) -> f c = g c) ->
  mapChildren f n = mapChildren g n.
Proof.
  unfold childNodes.
  destruct n; simpl; intros H;
    rewrite ?flat_map_concatOption_singleton, ?flat_map_singleton in H;
    repeat match goal with
           | |- context [f ?x] => rewrite (H x) by (rewrite ?in_app_iff; simpl; auto 6)
           end;
    try reflexivity; f_equal.
  - apply map_ext_in. intros x Hx. apply H. now right.
  - now apply map_ext_in.
  - apply map_ext_in. intros o Ho. apply option_map_ext_in.
    intros x ->. apply H. now apply In_nonHoles.
  - now apply map_ext_in.
  - apply map_ext_in. intros x Hx. apply H. apply in_or_app. now left.
  - apply option_map_ext_in. intros x ->. apply H. now left.
  - apply map_ext_in. intros x Hx. apply H.
    apply in_or_app. right. apply in_or_app. now left.
  - apply option_map_ext_in. intros x ->. apply H. now left.
  - now apply map_ext_in.
Qed.

Lemma mapChildren_mapChildren (f g : node -> node) (n : node) :
  mapChildren f (mapChildren g n) = mapChildren (fun x => f (g x)) n.
Proof.
  destruct n; simpl; rewrite ?map_map; try reflexivity.
  - f_equal. apply map_ext. now intros [x |].
  - now destruct id.
  - now destruct value.
Qed.

(** Running the pass on its own result changes nothing in the tree. *)
Lemma rewritten_idempotent : forall n : node,
  rewritten (rewritten n) = rewritten n.
Proof.
  induction n as [n IH] using node_subnodes_ind.
  rewrite (rewritten_not_qualifies (rewritten n) (qualifies_rewritten n)).
  destruct (rewritten_cases n) as [Hn | (name & expr & -> & _ & Hn)];
    rewrite Hn.
  - rewrite mapChildren_mapChildren. apply mapChildren_ext.
    intros c Hc. apply (IH c c Hc), subnodes_self.
  - unfold wrapped. simpl.
    rewrite (rewritten_not_qualifies (JSXExpressionContainer _) eq_refl). simpl.
    rewrite (rewritten_not_qualifies (ArrowFunctionExpression _ _ _) eq_refl). simpl.
    rewrite (IH (JSXExpressionContainer expr) expr); [reflexivity | now left |].
    simpl. right. apply subnodes_self.
Qed.

(** ... and does not raise the flag. *)
Lemma changedBy_rewritten : forall n : node, changedBy (rewritten n) = false.
Proof.
  induction n as [n IH] using node_subnodes_ind.
  rewrite (changedBy_not_qualifies (rewritten n) (qualifies_rewritten n)).
  destruct (rewritten_cases n) as [Hn | (name & expr & -> & _ & Hn)];
    rewrite Hn.
  - rewrite childNodes_mapChildren.
    rewrite (existsb_map_ext changedBy rewritten (fun _ => false)).
    + generalize (childNodes n). intros l. induction l; auto.
    + intros c Hc. apply (IH c c Hc), subnodes_self.
  - unfold wrapped, childNodes. simpl.
    rewrite (changedBy_not_qualifies (JSXExpressionContainer _) eq_refl).
    unfold childNodes. simpl.
    rewrite (changedBy_not_qualifies (ArrowFunctionExpression _ _ _) eq_refl).
    unfold childNodes. simpl.
    rewrite (IH (JSXExpressionContainer expr) expr); [reflexivity | now left |].
    simpl. right. apply subnodes_self.
Qed.

Lemma traverse_idempotent (n : node) (changed changed' : bool) :
  traverse (fst (traverse n changed)) changed' = (fst (traverse n changed), changed').
Proof.
  rewrite (traverse_state n changed). simpl.
  rewrite traverse_state, rewritten_idempotent, changedBy_rewritten.
  now rewrite orb_false_r.
Qed.

(** The result of the pass is the input with thunks put around the
    expressions of the rewritable attributes, and nothing else. *)
Lemma rewritten_Thunked : forall n : node, Thunked n (rewritten n).
Proof.
  induction n as [n IH] using node_subnodes_ind.
  destruct (rewritten_cases n) as [-> | (name & expr & -> & Hw & ->)].
  - apply Thunked_children. intros c Hc. apply (IH c c Hc), subnodes_self.
  - apply Thunked_wrap; [exact Hw |].
    apply (IH (JSXExpressionContainer expr) expr); [now left |].
    simpl. right. apply subnodes_self.
Qed.

(** A tree with nothing to rewrite comes back as it was. *)
Lemma mapChildren_id (n : node) : mapChildren (fun x => x) n = n.
Proof.
  destruct n; simpl; rewrite ?map_id; try reflexivity.
  - f_equal. rewrite <- (map_id elements) at 2. apply map_ext. now intros [x |].
  - now destruct id.
  - now destruct value.
Qed.

Lemma rewritten_unchanged : forall n : node,
  changedBy n = false -> rewritten n = n.
Proof.
  induction n as [n IH] using node_children_ind.
  intros Hc.
  destruct (qualifies n) eqn:Hq.
  - destruct n; try discriminate.
    destruct value as [[] |]; try discriminate.
    rewrite (changedBy_wrapped _ _ Hq) in Hc. discriminate.
  - rewrite (rewritten_not_qualifies n Hq).
    rewrite (changedBy_not_qualifies n Hq) in Hc.
    rewrite <- (mapChildren_id n) at 2.
    apply mapChildren_ext. intros c Hin. apply (IH c Hin).
    destruct (changedBy c) eqn:E; [| reflexivity].
    rewrite <- Hc. symmetry. apply existsb_exists. now exists c.
Qed.

(** ** Counting nodes *)

Lemma length_flat_map_sum {A B : Type} (f : A -> list B) (l : list A) :
  length (flat_map f l) = list_sum (map (fun x => length (f x)) l).
Proof.
  induction l as [| a l IH]; simpl; [reflexivity |].
  now rewrite length_app, IH.
Qed.

Lemma filter_flat_map {A B : Type} (p : B -> bool) (f : A -> list B) (l : list A) :
  filter p (flat_map f l) = flat_map (fun x => filter p (f x)) l.
Proof.
  induction l as [| a l IH]; simpl; [reflexivity |].
  now rewrite filter_app, IH.
Qed.

Lemma list_sum_add_ext {A : Type} (f g h : A -> nat) (l : list A) :
  (forall x, In x l -> f x = g x + h x) ->
  list_sum (map f l) = list_sum (map g l) + list_sum (map h l).
Proof.
  induction l as [| a l IH]; intros H; simpl; [reflexivity |].
  rewrite (H a) by now left.
  rewrite IH by (intros x Hx; apply H; now right).
  lia.
Qed.

Lemma length_subnodes (n : node) :
  length (subnodes n)
  = S (list_sum (map (fun c => length (subnodes c)) (childNodes n))).
Proof. now rewrite subnodes_unfold at 1; simpl; rewrite length_flat_map_sum. Qed.

Lemma length_rewrittenAttributes (n : node) :
  length (rewrittenAttributes n)
  = (if qualifies n then 1 else 0)
    + list_sum (map (fun c => length (rewrittenAttributes c)) (childNodes n)).
Proof.
  unfold rewrittenAttributes. rewrite subnodes_unfold at 1. simpl.
  rewrite filter_flat_map, <- length_flat_map_sum.
  destruct (qualifies n); reflexivity.
Qed.

(** Each rewrite adds one node, the arrow function, and the pass neither
    drops nor copies any other. *)
Lemma rewritten_node_count : forall n : node,
  length (subnodes (rewritten n))
  = length (subnodes n) + length (rewrittenAttributes n).
Proof.
  induction n as [n IH] using node_subnodes_ind.
  rewrite (length_rewrittenAttributes n).
  destruct (qualifies n) eqn:Hq.
  - destruct n; try discriminate.
    destruct value as [[] |]; try discriminate.
    rewrite (rewritten_wrapped _ _ Hq).
    assert (He := IH (JSXExpressionContainer expression) expression
                     (or_introl eq_refl)).
    simpl in He. specialize (He (or_intror (subnodes_self expression))).
    unfold childNodes. simpl.
    rewrite (length_rewrittenAttributes (JSXExpressionContainer expression)).
    unfold childNodes. simpl. rewrite He. lia.
  - rewrite (rewritten_not_qualifies n Hq).
    rewrite (length_subnodes (mapChildren rewritten n)), childNodes_mapChildren.
    rewrite map_map, (length_subnodes n).
    rewrite (list_sum_add_ext _ (fun c => length (subnodes c))
               (fun c => length (rewrittenAttributes c))).
    + simpl. lia.
    + intros c Hc. apply (IH c c Hc), subnodes_self.
Qed.

(** The flag tells the truth: it stays down exactly when the tree comes
    back as it was. *)
Lemma changedBy_false_unchanged (n : node) :
  changedBy n = false <-> rewritten n = n.
Proof.
  split; [apply rewritten_unchanged |].
  intros Heq. apply changedBy_false_iff.
  pose proof (rewritten_node_count n) as Hcount.
  rewrite Heq in Hcount.
  destruct (rewrittenAttributes n); [reflexivity | simpl in Hcount; lia].
Qed.

Lemma rewrittenAttributes_child (n c : node) :
  rewrittenAttributes n = [] -> In c (childNodes n) -> rewrittenAttributes c = [].
Proof.
  unfold rewrittenAttributes. rewrite (subnodes_unfold n). simpl.
  intros H Hc.
  assert (Hall : filter qualifies (flat_map subnodes (childNodes n)) = []).
  { destruct (qualifies n); [discriminate | exact H]. }
  rewrite filter_flat_map in Hall.
  destruct (filter qualifies (subnodes c)) as [| a l] eqn:E; [reflexivity |].
  assert (Ha : In a (flat_map (fun x => filter qualifies (subnodes x)) (childNodes n))).
  { apply in_flat_map. exists c. split; [exact Hc |]. rewrite E. now left. }
  rewrite Hall in Ha. contradiction.
Qed.

(** [Thunked] allows nothing but thunks: a tree without a rewritable
    attribute is related to itself only. *)
Lemma Thunked_nothing_to_rewrite (n n' : node) :
  Thunked n n' -> rewrittenAttributes n = [] -> n' = n.
Proof.
  induction 1 as [name expr expr' Hw _ _ | n f _ IH]; intros Hnone.
  - unfold rewrittenAttributes in Hnone. simpl in Hnone.
    rewrite Hw in Hnone. discriminate.
  - rewrite <- (mapChildren_id n) at 2.
    apply mapChildren_ext. intros c Hc.
    apply (IH c Hc). now apply (rewrittenAttributes_child n).
Qed.

(** C8.  The one change the visitor ever makes to an attribute is to put
    the container's expression, as it is, into the body of a new arrow
    function without parameters; an attribute it does not rewrite is handed
    back as it was.  Over a whole tree the pass inserts such thunks and does
    nothing else: the result is related to the input by [Thunked], and it
    has one node more per rewritten attribute. *)
Theorem thunk_is_only_mutation :
  forall (name : JSXName) (value : option node) (ast : node) (changed : bool),
  (forall expr,
      value = Some (JSXExpressionContainer expr) ->
      wraps name expr = true ->
      JSXAttribute_visitor name value changed =
      (JSXAttribute name
         (Some (JSXExpressionContainer (ArrowFunctionExpression [] expr false))),
       true))
  /\ ((forall expr, value = Some (JSXExpressionContainer expr) ->
                    wraps name expr = false) ->
      JSXAttribute_visitor name value changed = (JSXAttribute name value, changed))
  /\ Thunked ast (fst (traverse ast changed))
  /\ length (subnodes (fst (traverse ast changed)))
     = length (subnodes ast) + length (rewrittenAttributes ast).
Proof.
  intros name value ast changed. repeat split.
  - intros expr -> Hw. now rewrite JSXAttribute_visitor_container, Hw.
  - intros Hno. destruct value as [[] |]; try reflexivity.
    now rewrite JSXAttribute_visitor_container, (Hno expression eq_refl).
  - rewrite traverse_state. apply rewritten_Thunked.
  - rewrite traverse_state. apply rewritten_node_count.
Qed.

(** The sample element: [class] is thunked, [onClick] is not. *)
Example traverse_sample :
  traverse (sampleFile sampleAttributes) false
  = (sampleFile sampleAttributesAfter, true).
Proof. reflexivity. Qed.

(** An attribute below a rewritten attribute is visited too:
    [<a x={f() ? <b y={g()} /> : null} />]. *)
Example traverse_nested :
  traverse
    (sampleElement
       [JSXAttribute (JSXIdentifier "x")
          (Some (JSXExpressionContainer
                   (ConditionalExpression (CallExpression (Identifier "f") [])
                      (sampleElement
                         [JSXAttribute (JSXIdentifier "y")
                            (Some (JSXExpressionContainer
                                     (CallExpression (Identifier "g") [])))])
                      (OtherNode "NullLiteral" []))))]) false
  = (sampleElement
       [JSXAttribute (JSXIdentifier "x")
          (Some (JSXExpressionContainer
                   (ArrowFunctionExpression []
                      (ConditionalExpression (CallExpression (Identifier "f") [])
                         (sampleElement
                            [JSXAttribute (JSXIdentifier "y")
                               (Some (JSXExpressionContainer
                                        (ArrowFunctionExpression []
                                           (CallExpression (Identifier "g") [])
                                           false)))])
                         (OtherNode "NullLiteral" [])) false)))],
     true).
Proof. reflexivity. Qed.

(** ** The transform hook *)

Lemma substring_all (s : string) : substring 0 (String.length s) s = s.
Proof. induction s as [| a s IH]; simpl; [| rewrite IH]; reflexivity. Qed.

Lemma substring_append_skip (stem p : string) :
  substring (String.length stem) (String.length p) (stem ++ p) = p.
Proof.
  induction stem as [| a stem IH]; simpl; [apply substring_all | exact IH].
Qed.

Lemma substring_split (s : string) (n : nat) :
  n <= String.length s ->
  s = substring 0 n s ++ substring n (String.length s - n) s.
Proof.
  revert n. induction s as [| a s IH]; intros [| n] H; simpl in *.
  - reflexivity.
  - lia.
  - now rewrite substring_all.
  - rewrite <- IH by lia. reflexivity.
Qed.

Lemma length_append (s1 s2 : string) :
  String.length (s1 ++ s2) = String.length s1 + String.length s2.
Proof. induction s1 as [| a s1 IH]; simpl; [| rewrite IH]; reflexivity. Qed.

(** [s.endsWith(p)] holds exactly when [s] is some text followed by [p]. *)
Lemma endsWith_iff (s p : string) :
  endsWith s p = true <-> exists stem, s = stem ++ p.
Proof.
  unfold endsWith. rewrite andb_true_iff, Nat.leb_le, String.eqb_eq. split.
  - intros [Hlen Hsub].
    exists (substring 0 (String.length s - String.length p) s).
    rewrite (substring_split s (String.length s - String.length p)) at 1 by lia.
    replace (String.length s - (String.length s - String.length p))
      with (String.length p) by lia.
    now rewrite Hsub.
  - intros [stem ->]. rewrite length_append. split; [lia |].
    replace (String.length stem + String.length p - String.length p)
      with (String.length stem) by lia.
    apply substring_append_skip.
Qed.

(** Equal trees compare equal, and only they do. *)
Lemma list_eqb_eq {A : Type} (eqb : A -> A -> bool) (l : list A) :
  (forall x, In x l -> forall y, eqb x y = true -> x = y) ->
  forall l', list_eqb eqb l l' = true -> l = l'.
Proof.
  induction l as [| a l IH]; intros H [| b l'] E; simpl in E;
    try discriminate; [reflexivity |].
  apply andb_true_iff in E. destruct E as [Eab El].
  rewrite (H a (or_introl eq_refl) b Eab).
  rewrite (IH (fun x Hx => H x (or_intror Hx)) l' El). reflexivity.
Qed.

Lemma JSXName_eqb_eq (a b : JSXName) : JSXName_eqb a b = true -> a = b.
Proof.
  destruct a, b; simpl; try discriminate.
  - intros E. apply String.eqb_eq in E. now subst.
  - intros E. apply andb_true_iff in E. destruct E as [E1 E2].
    apply String.eqb_eq in E1, E2. now subst.
Qed.

Lemma node_eqb_eq : forall x y : node, node_eqb x y = true -> x = y.
Proof.
  induction x; intros y E; destruct y; simpl in E; try discriminate;
    pointwise_IH;
    repeat match goal with
           | H : _ && _ = true |- _ => apply andb_true_iff in H; destruct H
           | H : String.eqb _ _ = true |- _ => apply String.eqb_eq in H; subst
           | H : Bool.eqb _ _ = true |- _ => apply Bool.eqb_prop in H; subst
           | H : JSXName_eqb _ _ = true |- _ => apply JSXName_eqb_eq in H; subst
           | IH : forall y, node_eqb ?x y = true -> ?x = y,
             H : node_eqb ?x _ = true |- _ => apply IH in H; subst
           | IH : forall x, In x ?l -> forall y, node_eqb x y = true -> x = y,
             H : list_eqb node_eqb ?l _ = true |- _ =>
               apply (list_eqb_eq node_eqb l IH) in H; subst
           end;
    try reflexivity.
  - f_equal. apply (list_eqb_eq String.eqb quasis); [| assumption].
    intros s _ t Hst. now apply String.eqb_eq.
  - f_equal. apply (list_eqb_eq (option_eqb node_eqb) elements); [| exact E].
    intros [a |] Ha [b |] Hab; simpl in Hab; try discriminate; [| reflexivity].
    f_equal. now apply (H a Ha).
  - destruct id as [a |], id0 as [b |]; simpl in H0; try discriminate;
      [| reflexivity].
    f_equal. f_equal. now apply (H a eq_refl).
  - destruct value as [a |], value0 as [b |]; simpl in H1; try discriminate;
      [| reflexivity].
    f_equal. f_equal. now apply (H a eq_refl).
Qed.

Section Transform.
Variable SourceMap : Type.
Variable parse : string -> option node.
Variable crawl : node -> bool.
Variable generate : node -> bool -> string -> Result.t SourceMap.

(** What the hook returns once the file has been parsed and its
    declarations registered. *)
Lemma transform_parsed (code id : string) (ast : node) :
  endsWith id ".jsx" = true \/ endsWith id ".tsx" = true ->
  parse code = Some ast ->
  crawl ast = true ->
  run parse crawl generate (transform code id) =
  Returned
    (if changedBy ast
     then Some {| Result.code := Result.code (generate (rewritten ast) true code);
                  Result.map := Result.map (generate (rewritten ast) true code) |}
     else None).
Proof.
  intros Hext Hparse Hcrawl. unfold transform.
  replace (negb (endsWith id ".jsx") && negb (endsWith id ".tsx")) with false
    by (destruct Hext as [-> | ->]; simpl; now rewrite ?andb_false_r).
  simpl. rewrite Hparse. simpl. rewrite Hcrawl, traverse_state. simpl.
  destruct (changedBy ast); reflexivity.
Qed.

(** The exception of the scope registration is not caught. *)
Lemma transform_crawl_throws (code id : string) (ast : node) :
  endsWith id ".jsx" = true \/ endsWith id ".tsx" = true ->
  parse code = Some ast ->
  crawl ast = false ->
  run parse crawl generate (transform code id) = Thrown.
Proof.
  intros Hext Hparse Hcrawl. unfold transform.
  replace (negb (endsWith id ".jsx") && negb (endsWith id ".tsx")) with false
    by (destruct Hext as [-> | ->]; simpl; now rewrite ?andb_false_r).
  simpl. rewrite Hparse. simpl. now rewrite Hcrawl.
Qed.

Lemma transform_parse_failed (code id : string) :
  parse code = None -> run parse crawl generate (transform code id) = Returned None.
Proof.
  intros Hparse. unfold transform.
  destruct (negb (endsWith id ".jsx") && negb (endsWith id ".tsx"));
    simpl; [reflexivity |].
  now rewrite Hparse.
Qed.

Lemma transform_other_extension (code id : string) :
  ~ (exists stem, id = stem ++ ".jsx") ->
  ~ (exists stem, id = stem ++ ".tsx") ->
  transform (SourceMap := SourceMap) code id = Return None.
Proof.
  intros Hjsx Htsx. unfold transform.
  destruct (endsWith id ".jsx") eqn:E1.
  { exfalso. apply Hjsx. now apply endsWith_iff. }
  destruct (endsWith id ".tsx") eqn:E2.
  { exfalso. apply Htsx. now apply endsWith_iff. }
  reflexivity.
Qed.

(** A run that returned a result went through every step. *)
Lemma transform_returned_result (code id : string) (r : Result.t SourceMap) :
  run parse crawl generate (transform code id) = Returned (Some r) ->
  exists ast,
    (endsWith id ".jsx" = true \/ endsWith id ".tsx" = true)
    /\ parse code = Some ast
    /\ crawl ast = true
    /\ changedBy ast = true
    /\ Result.code r = Result.code (generate (rewritten ast) true code).
Proof.
  intros Hrun.
  assert (Hext : endsWith id ".jsx" = true \/ endsWith id ".tsx" = true).
  { unfold transform in Hrun.
    destruct (endsWith id ".jsx"); [now left |].
    destruct (endsWith id ".tsx"); [now right |].
    simpl in Hrun. discriminate. }
  destruct (parse code) as [ast |] eqn:Hparse.
  2: { rewrite (transform_parse_failed code id Hparse) in Hrun. discriminate. }
  destruct (crawl ast) eqn:Hcrawl.
  2: { rewrite (transform_crawl_throws code id ast Hext Hparse Hcrawl) in Hrun.
       discriminate. }
  rewrite (transform_parsed code id ast Hext Hparse Hcrawl) in Hrun.
  exists ast. destruct (changedBy ast); [| discriminate].
  inversion Hrun. repeat split; auto.
Qed.
End Transform.

(** C5.  When the identifier ends in neither ".jsx" nor ".tsx" the hook is
    finished at once with [null]: it makes no call to the parser, whatever
    parser it is given.  When the parser throws, the hook returns [null]. *)
Theorem transform_not_applicable :
  forall (SourceMap : Type) (code id : string),
  ((~ exists stem, id = stem ++ ".jsx") ->
   (~ exists stem, id = stem ++ ".tsx") ->
   transform (SourceMap := SourceMap) code id = Return None
   /\ forall parse crawl generate,
        parseCalls parse crawl generate (transform (SourceMap := SourceMap) code id) = 0)
  /\ (forall parse crawl generate,
         parse code = None ->
         run parse crawl generate (transform (SourceMap := SourceMap) code id)
         = Returned None).
Proof.
  intros SourceMap code id. split.
  - intros Hjsx Htsx.
    rewrite (transform_other_extension SourceMap code id Hjsx Htsx).
    split; reflexivity.
  - intros parse crawl generate. apply transform_parse_failed.
Qed.

Example transform_css_file :
  transform (SourceMap := unit) sampleSource "styles.css" = Return None.
Proof. reflexivity. Qed.

Example transform_syntax_error :
  run sampleParse sampleCrawl sampleGenerate (transform "<div class={" "App.tsx")
  = Returned None.
Proof. reflexivity. Qed.

(** An identifier merely containing the extension does not count. *)
Example transform_jsx_in_the_middle :
  transform (SourceMap := unit) sampleSource "App.jsx.bak" = Return None.
Proof. reflexivity. Qed.

(** C6, as the code has it.  For a file that was parsed and whose
    declarations Babel registered without throwing, the hook returns [null]
    exactly when the walk rewrote no attribute (which is exactly when the
    tree came back as it was), and exactly when it rewrote at least one it
    returns the text the generator gave for the rewritten tree, with the
    [map] field of the generator's result as it is. *)
Theorem transform_result_iff_changed :
  forall (SourceMap : Type)
         (parse : string -> option node)
         (crawl : node -> bool)
         (generate : node -> bool -> string -> Result.t SourceMap)
         (code id : string) (ast : node),
  (exists stem, id = stem ++ ".jsx") \/ (exists stem, id = stem ++ ".tsx") ->
  parse code = Some ast ->
  crawl ast = true ->
  (run parse crawl generate (transform code id) = Returned None
   <-> rewrittenAttributes ast = [])
  /\ (run parse crawl generate (transform code id) = Returned None
      <-> rewritten ast = ast)
  /\ (rewrittenAttributes ast <> [] <->
      run parse crawl generate (transform code id) =
      Returned
        (Some {| Result.code := Result.code (generate (rewritten ast) true code);
                 Result.map := Result.map (generate (rewritten ast) true code) |})).
Proof.
  intros SourceMap parse crawl generate code id ast Hext Hparse Hcrawl.
  assert (Hext' : endsWith id ".jsx" = true \/ endsWith id ".tsx" = true).
  { destruct Hext as [H | H]; [left | right]; now apply endsWith_iff. }
  rewrite (transform_parsed SourceMap parse crawl generate code id ast
             Hext' Hparse Hcrawl).
  rewrite <- changedBy_false_unchanged, <- changedBy_false_iff.
  destruct (changedBy ast); repeat split;
    try discriminate; try reflexivity; try congruence.
Qed.

(** The sample file, in which one attribute is rewritten. *)
Lemma transform_result_iff_changed_witness :
  ((exists stem, "App.jsx" = stem ++ ".jsx") \/ (exists stem, "App.jsx" = stem ++ ".tsx"))
  /\ sampleParse sampleSource = Some (sampleFile sampleAttributes)
  /\ sampleCrawl (sampleFile sampleAttributes) = true
  /\ (run sampleParse sampleCrawl sampleGenerate (transform sampleSource "App.jsx")
      = Returned None
      <-> rewrittenAttributes (sampleFile sampleAttributes) = [])
  /\ (run sampleParse sampleCrawl sampleGenerate (transform sampleSource "App.jsx")
      = Returned None
      <-> rewritten (sampleFile sampleAttributes) = sampleFile sampleAttributes)
  /\ (rewrittenAttributes (sampleFile sampleAttributes) <> [] <->
      run sampleParse sampleCrawl sampleGenerate (transform sampleSource "App.jsx") =
      Returned
        (Some {| Result.code :=
                   Result.code (sampleGenerate (rewritten (sampleFile sampleAttributes))
                                  true sampleSource);
                 Result.map :=
                   Result.map (sampleGenerate (rewritten (sampleFile sampleAttributes))
                                 true sampleSource) |})).
Proof.
  assert (Hext : (exists stem, "App.jsx" = stem ++ ".jsx")
                 \/ (exists stem, "App.jsx" = stem ++ ".tsx")).
  { left. exists "App". reflexivity. }
  assert (Hparse : sampleParse sampleSource = Some (sampleFile sampleAttributes)).
  { reflexivity. }
  assert (Hcrawl : sampleCrawl (sampleFile sampleAttributes) = true).
  { reflexivity. }
  split; [exact Hext |]. split; [exact Hparse |]. split; [exact Hcrawl |].
  exact (transform_result_iff_changed (option string) sampleParse sampleCrawl
           sampleGenerate sampleSource "App.jsx" (sampleFile sampleAttributes)
           Hext Hparse Hcrawl).
Defined.

(** C6, as the specification has it, fails on a file that parses and whose
    declarations Babel refuses to register: no attribute is rewritten, and
    the hook does not return [null]; it does not return at all. *)
Lemma transform_throws_on_parsed_file :
  sampleParse duplicateSource = Some duplicateFile
  /\ rewrittenAttributes duplicateFile = []
  /\ run sampleParse sampleCrawl sampleGenerate (transform duplicateSource "App.tsx")
     = Thrown
  /\ ~ (run sampleParse sampleCrawl sampleGenerate (transform duplicateSource "App.tsx")
        = Returned None
        <-> rewrittenAttributes duplicateFile = []).
Proof.
  repeat split; try reflexivity.
  intros [_ H]. specialize (H eq_refl). discriminate.
Qed.

Example transform_sample :
  run sampleParse sampleCrawl sampleGenerate (transform sampleSource "App.jsx")
  = Returned (Some {| Result.code := sampleOutput; Result.map := None |}).
Proof. reflexivity. Qed.

(** C4.  Running the hook on the text it returned gives [null].  Of Babel
    this takes that the text the generator prints for a tree, if it parses
    at all, parses back to that tree, and that the scope registration does
    not start to throw because of the thunks; the hook printed the
    rewritten tree, in which every attribute the first run wrapped now
    holds an arrow function and no other attribute has become
    rewritable. *)
Theorem transform_idempotent :
  forall (SourceMap : Type)
         (parse : string -> option node)
         (crawl : node -> bool)
         (generate : node -> bool -> string -> Result.t SourceMap)
         (code id : string) (r : Result.t SourceMap),
  (forall t c t', parse (Result.code (generate t true c)) = Some t' -> t' = t) ->
  (forall t, crawl t = true -> crawl (rewritten t) = true) ->
  run parse crawl generate (transform code id) = Returned (Some r) ->
  run parse crawl generate (transform (Result.code r) id) = Returned None.
Proof.
  intros SourceMap parse crawl generate code id r Hround Hstable Hrun.
  destruct (transform_returned_result SourceMap parse crawl generate code id r Hrun)
    as (ast & Hext & Hparse & Hcrawl & Hchanged & Hcode).
  destruct (parse (Result.code r)) as [ast' |] eqn:Hparse';
    [| now apply transform_parse_failed].
  assert (Hast' : ast' = rewritten ast).
  { apply (Hround (rewritten ast) code ast'). now rewrite <- Hcode. }
  subst ast'.
  rewrite (transform_parsed SourceMap parse crawl generate _ id _ Hext Hparse'
             (Hstable ast Hcrawl)).
  now rewrite changedBy_rewritten.
Qed.

Lemma attributeNames_child (n c : node) :
  attributeNames n = [] -> In c (childNodes n) -> attributeNames c = [].
Proof.
  unfold attributeNames. rewrite (subnodes_unfold n). simpl.
  intros H Hc. apply app_eq_nil in H. destruct H as [_ H].
  destruct (flat_map attributeName (subnodes c)) as [| a l] eqn:E; [reflexivity |].
  assert (Ha : In a (flat_map attributeName (flat_map subnodes (childNodes n)))).
  { apply in_flat_map.
    assert (Ha : In a (flat_map attributeName (subnodes c))) by (rewrite E; now left).
    apply in_flat_map in Ha. destruct Ha as (x & Hx & Hax).
    exists x. split; [| exact Hax]. apply in_flat_map. now exists c. }
  rewrite H in Ha. contradiction.
Qed.

(** A tree without attributes is the result of thunking itself only. *)
Lemma Thunked_to_no_attribute (n n' : node) :
  Thunked n n' -> attributeNames n' = [] -> n = n'.
Proof.
  induction 1 as [name expr expr' Hw _ _ | n f _ IH]; intros Hnone.
  - discriminate.
  - rewrite <- (mapChildren_id n) at 1.
    apply mapChildren_ext. intros c Hc.
    apply (IH c Hc).
    apply (attributeNames_child (mapChildren f n)); [exact Hnone |].
    rewrite childNodes_mapChildren. now apply in_map.
Qed.

(** The sample file and the text generated for it. *)
Lemma transform_idempotent_witness :
  (forall t c t',
      sampleParse (Result.code (sampleGenerate t true c)) = Some t' -> t' = t)
  /\ (forall t, sampleCrawl t = true -> sampleCrawl (rewritten t) = true)
  /\ run sampleParse sampleCrawl sampleGenerate (transform sampleSource "App.jsx")
     = Returned (Some {| Result.code := sampleOutput; Result.map := None |})
  /\ run sampleParse sampleCrawl sampleGenerate (transform sampleOutput "App.jsx")
     = Returned None.
Proof.
  assert (Hround : forall t c t',
             sampleParse (Result.code (sampleGenerate t true c)) = Some t' -> t' = t).
  { intros t c t' H. unfold sampleGenerate in H.
    destruct (node_eqb t (sampleFile sampleAttributesAfter)) eqn:E.
    - apply node_eqb_eq in E. subst t.
      vm_compute in H. now inversion H.
    - vm_compute in H. discriminate. }
  assert (Hstable : forall t, sampleCrawl t = true -> sampleCrawl (rewritten t) = true).
  { intros t Ht. unfold sampleCrawl in *.
    destruct (node_eqb (rewritten t) duplicateFile) eqn:E; [| reflexivity].
    apply node_eqb_eq in E.
    assert (Heq : t = rewritten t).
    { apply Thunked_to_no_attribute; [apply rewritten_Thunked |].
      now rewrite E. }
    rewrite Heq, E in Ht. vm_compute in Ht. discriminate. }
  assert (Hrun : run sampleParse sampleCrawl sampleGenerate
                   (transform sampleSource "App.jsx")
                 = Returned (Some {| Result.code := sampleOutput;
                                     Result.map := None |})).
  { reflexivity. }
  split; [exact Hround |]. split; [exact Hstable |]. split; [exact Hrun |].
  exact (transform_idempotent (option string) sampleParse sampleCrawl sampleGenerate
           sampleSource "App.jsx"
           {| Result.code := sampleOutput; Result.map := None |}
           Hround Hstable Hrun).
Defined.

(** * Further properties of the code *)

(** ** The detector against its comment *)

Lemma subnodes_of_child (n c x : node) :
  In c (childNodes n) -> In x (subnodes c) -> In x (subnodes n).
Proof.
  intros Hc Hx. rewrite subnodes_unfold. right.
  apply in_flat_map. now exists c.
Qed.

Lemma subnodes_trans : forall n y x : node,
  In y (subnodes n) -> In x (subnodes y) -> In x (subnodes n).
Proof.
  induction n as [n IH] using node_children_ind.
  intros y x Hy Hx. rewrite subnodes_unfold in Hy.
  destruct Hy as [<- | Hy]; [exact Hx |].
  apply in_flat_map in Hy. destruct Hy as (c & Hc & Hy).
  apply (subnodes_of_child n c x Hc). now apply (IH c Hc y).
Qed.

(** A call the detector reports is a call expression that is there. *)
Lemma HasCall_finds_call (n : node) :
  HasCall n -> exists c, In c (subnodes n) /\ isCallExpression c = true.
Proof.
  induction 1 as
    [ callee arguments
    | quasis expressions e Hin _ (c & Hc & Hcall)
    | test consequent alternate _ (c & Hc & Hcall)
    | test consequent alternate _ (c & Hc & Hcall)
    | test consequent alternate _ (c & Hc & Hcall)
    | op l r _ (c & Hc & Hcall) | op l r _ (c & Hc & Hcall)
    | op l r _ (c & Hc & Hcall) | op l r _ (c & Hc & Hcall)
    | op argument _ (c & Hc & Hcall)
    | object property computed _ (c & Hc & Hcall)
    | elements e Hin _ (c & Hc & Hcall)
    | properties key value computed shorthand Hin _ (c & Hc & Hcall) ].
  - exists (CallExpression callee arguments). split; [apply subnodes_self | reflexivity].
  - exists c. split; [| exact Hcall].
    apply (subnodes_of_child _ e); [| exact Hc].
    unfold childNodes. simpl. now rewrite flat_map_singleton.
  - exists c. split; [| exact Hcall].
    apply (subnodes_of_child _ test); [now left | exact Hc].
  - exists c. split; [| exact Hcall].
    apply (subnodes_of_child _ consequent); [right; now left | exact Hc].
  - exists c. split; [| exact Hcall].
    apply (subnodes_of_child _ alternate); [right; right; now left | exact Hc].
  - exists c. split; [| exact Hcall].
    apply (subnodes_of_child _ l); [now left | exact Hc].
  - exists c. split; [| exact Hcall].
    apply (subnodes_of_child _ r); [right; now left | exact Hc].
  - exists c. split; [| exact Hcall].
    apply (subnodes_of_child _ l); [now left | exact Hc].
  - exists c. split; [| exact Hcall].
    apply (subnodes_of_child _ r); [right; now left | exact Hc].
  - exists c. split; [| exact Hcall].
    apply (subnodes_of_child _ argument); [now left | exact Hc].
  - exists c. split; [| exact Hcall].
    apply (subnodes_of_child _ object); [now left | exact Hc].
  - exists c. split; [| exact Hcall].
    apply (subnodes_of_child _ e); [| exact Hc].
    unfold childNodes. simpl. now apply In_nonHoles.
  - exists c. split; [| exact Hcall].
    apply (subnodes_of_child _ (ObjectProperty key value computed shorthand)).
    + unfold childNodes. simpl. now rewrite flat_map_singleton.
    + apply (subnodes_of_child _ value); [right; now left | exact Hc].
Qed.

(** X1.  The comment above [containsCall] promises "true if the node (or any
    descendant) is a CallExpression".  One half holds: when the detector
    answers true there is a call expression in the tree.  The other half does
    not: a call in a place the detector does not look (a computed member key,
    a function body, an argument of [new]) goes unreported. *)
Theorem containsCall_sound_not_complete :
  (forall n, containsCall n = true ->
             exists c, In c (subnodes n) /\ isCallExpression c = true)
  /\ (forall object key,
         containsCall object = false ->
         In key (subnodes (MemberExpression object key true)) /\
         containsCall (MemberExpression object key true) = false)
  /\ (forall params body async,
         In body (subnodes (ArrowFunctionExpression params body async)) /\
         containsCall (ArrowFunctionExpression params body async) = false)
  /\ (forall type children child,
         In child children ->
         In child (subnodes (OtherNode type children)) /\
         containsCall (OtherNode type children) = false).
Proof.
  repeat split.
  - intros n Hn. apply HasCall_finds_call. now apply containsCall_HasCall.
  - apply (subnodes_of_child _ key); [right; now left | apply subnodes_self].
  - simpl. assumption.
  - apply (subnodes_of_child _ body); [| apply subnodes_self].
    unfold childNodes. simpl. rewrite flat_map_singleton.
    apply in_or_app. right. now left.
  - apply (subnodes_of_child _ child); [| apply subnodes_self].
    unfold childNodes. simpl. now rewrite flat_map_singleton.
Qed.

(** [a[f()]]: the call is there and is not reported. *)
Example containsCall_misses_computed_key :
  In (CallExpression (Identifier "f") [])
     (subnodes (MemberExpression (Identifier "a")
                  (CallExpression (Identifier "f") []) true))
  /\ containsCall (MemberExpression (Identifier "a")
                     (CallExpression (Identifier "f") []) true) = false.
Proof. split; [simpl; tauto | reflexivity]. Qed.

(** ** Trees without calls *)

Lemma callFree_not_qualifies (n x : node) :
  callFree n -> In x (subnodes n) -> qualifies x = false.
Proof.
  intros Hfree Hx.
  destruct (qualifies x) eqn:Hq; [| reflexivity].
  destruct x; try discriminate.
  destruct value as [[] |]; try discriminate.
  simpl in Hq. apply wraps_true_iff in Hq. destruct Hq as (_ & _ & Hcall).
  destruct (HasCall_finds_call expression) as (c & Hc & Hcc).
  { now apply containsCall_HasCall. }
  rewrite <- Hcc. apply Hfree.
  apply (subnodes_trans n _ c Hx).
  simpl. right. right. exact Hc.
Qed.

(** X2.  A tree in which no node is a call expression goes through the walk
    untouched, whatever the names of its attributes, and the flag is left
    as it was. *)
Theorem callFree_untouched : forall (n : node) (changed : bool),
  callFree n -> traverse n changed = (n, changed).
Proof.
  intros n changed Hfree.
  assert (Hflag : changedBy n = false).
  { rewrite changedBy_subnodes.
    destruct (existsb qualifies (subnodes n)) eqn:E; [| reflexivity].
    apply existsb_exists in E. destruct E as (x & Hx & Hq).
    now rewrite (callFree_not_qualifies n x Hfree Hx) in Hq. }
  rewrite traverse_state, Hflag, orb_false_r.
  now rewrite (rewritten_unchanged n Hflag).
Qed.

(** The sample without calls. *)
Lemma callFree_untouched_witness :
  callFree sampleCallFree
  /\ traverse sampleCallFree false = (sampleCallFree, false).
Proof.
  assert (Hfree : callFree sampleCallFree).
  { intros c Hc. vm_compute in Hc.
    repeat (destruct Hc as [<- | Hc]; [reflexivity |]). contradiction. }
  split; [exact Hfree |].
  apply (callFree_untouched sampleCallFree false Hfree).
Defined.

(** ** The visitor, run twice *)

(** X3.  The visitor hands back an attribute of the same name, raises the
    flag exactly when it rewrites and never lowers it, and a second visit
    of the attribute it handed back changes nothing. *)
Theorem JSXAttribute_visitor_twice :
  forall (name : JSXName) (value : option node) (changed changed' : bool),
  exists value',
    JSXAttribute_visitor name value changed
    = (JSXAttribute name value', changed || qualifies (JSXAttribute name value))
    /\ JSXAttribute_visitor name value' changed' = (JSXAttribute name value', changed').
Proof.
  intros name value changed changed'.
  destruct value as [v |].
  - destruct v;
      try (eexists; split; [simpl; now rewrite orb_false_r | reflexivity]).
    rewrite JSXAttribute_visitor_container. simpl.
    destruct (wraps name v) eqn:Hw.
    + eexists. split; [now rewrite orb_true_r |].
      now rewrite JSXAttribute_visitor_container, wraps_arrow.
    + eexists. split; [now rewrite orb_false_r |].
      now rewrite JSXAttribute_visitor_container, Hw.
  - exists None. split; [simpl; now rewrite orb_false_r | reflexivity].
Qed.

(** ** The walk, run twice *)

(** X4.  The tree the walk returns does not depend on the value the flag
    had when it started, and the walk only ever raises the flag. *)
Theorem traverse_flag : forall (n : node) (changed : bool),
  fst (traverse n changed) = fst (traverse n false)
  /\ snd (traverse n changed) = changed || snd (traverse n false)
  /\ snd (traverse n true) = true.
Proof.
  intros n changed.
  rewrite (traverse_state n changed), (traverse_state n true).
  repeat split.
Qed.

(** X5.  One walk does all the work: in the tree it returns no attribute is
    left that the visitor would rewrite, at any depth, and a further walk
    returns the same tree and leaves the flag alone. *)
Theorem traverse_reaches_fixpoint : forall (n : node) (changed changed' : bool),
  rewrittenAttributes (fst (traverse n changed)) = []
  /\ traverse (fst (traverse n changed)) changed' = (fst (traverse n changed), changed').
Proof.
  intros n changed changed'.
  rewrite (traverse_state n changed). simpl. split.
  - apply changedBy_false_iff, changedBy_rewritten.
  - rewrite traverse_state, rewritten_idempotent, changedBy_rewritten.
    now rewrite orb_false_r.
Qed.

(** X6.  What the visitor decides for an attribute does not depend on
    whether the walk has already been below it: the walk changes neither
    the detector's answer nor the classifier's answer on any node. *)
Theorem decision_independent_of_order :
  forall (name : JSXName) (attrName : string) (expr : node) (changed : bool),
  containsCall (fst (traverse expr changed)) = containsCall expr
  /\ shouldSkip attrName (fst (traverse expr changed)) = shouldSkip attrName expr
  /\ JSXAttribute_visitor name
       (Some (JSXExpressionContainer (fst (traverse expr changed)))) false
     = (if wraps name expr
        then (wrapped name (fst (traverse expr changed)), true)
        else (JSXAttribute name
                (Some (JSXExpressionContainer (fst (traverse expr changed)))), false)).
Proof.
  intros name attrName expr changed.
  rewrite (traverse_state expr changed). cbn [fst]. repeat split.
  - apply containsCall_rewritten.
  - apply shouldSkip_rewritten.
  - now rewrite JSXAttribute_visitor_container, wraps_rewritten.
Qed.

(** ** The calls of a tree *)

Lemma filter_map_stable {A : Type} (p : A -> bool) (f : A -> A) (l : list A) :
  (forall x, p (f x) = p x) -> filter p (map f l) = map f (filter p l).
Proof.
  intros Hp. induction l as [| a l IH]; simpl; [reflexivity |].
  rewrite Hp. destruct (p a); simpl; now rewrite IH.
Qed.

Lemma flat_map_of_map {A B C : Type} (g : B -> list C) (f : A -> B) (l : list A) :
  flat_map g (map f l) = flat_map (fun x => g (f x)) l.
Proof. induction l as [| a l IH]; simpl; [| rewrite IH]; reflexivity. Qed.

Lemma map_of_flat_map {A B C : Type} (f : B -> C) (g : A -> list B) (l : list A) :
  map f (flat_map g l) = flat_map (fun x => map f (g x)) l.
Proof.
  induction l as [| a l IH]; simpl; [reflexivity |].
  now rewrite map_app, IH.
Qed.

Lemma flat_map_ext_in {A B : Type} (f g : A -> list B) (l : list A) :
  (forall x, In x l -> f x = g x) -> flat_map f l = flat_map g l.
Proof.
  induction l as [| a l IH]; intros H; simpl; [reflexivity |].
  rewrite (H a) by now left.
  rewrite IH; [reflexivity |].
  intros x Hx. apply H. now right.
Qed.

Lemma isCallExpression_mapChildren (f : node -> node) (n : node) :
  isCallExpression (mapChildren f n) = isCallExpression n.
Proof. destruct n; reflexivity. Qed.

(** X7.  The walk adds no call, drops none, copies none and keeps them in
    order: the call expressions of the tree it returns are those of the
    tree it was given, each walked in turn. *)
Theorem calls_preserved : forall (n : node) (changed : bool),
  filter isCallExpression (subnodes (fst (traverse n changed)))
  = map rewritten (filter isCallExpression (subnodes n)).
Proof.
  intros n changed. rewrite traverse_state. cbn [fst].
  induction n as [n IH] using node_subnodes_ind.
  destruct (rewritten_cases n) as [Hn | (name & expr & -> & Hw & Hn)].
  - rewrite Hn at 1.
    rewrite (subnodes_unfold (mapChildren rewritten n)), (subnodes_unfold n).
    rewrite childNodes_mapChildren, flat_map_of_map.
    cbn [filter]. rewrite isCallExpression_mapChildren.
    assert (Htail :
      filter isCallExpression
        (flat_map (fun c => subnodes (rewritten c)) (childNodes n))
      = map rewritten
          (filter isCallExpression (flat_map subnodes (childNodes n)))).
    { rewrite !filter_flat_map, map_of_flat_map.
      apply flat_map_ext_in. intros c Hc.
      apply (IH c c Hc), subnodes_self. }
    destruct (isCallExpression n); cbn [map]; rewrite Htail; [| reflexivity].
    now rewrite Hn.
  - rewrite Hn.
    assert (He : filter isCallExpression (subnodes (rewritten expr))
                 = map rewritten (filter isCallExpression (subnodes expr))).
    { apply (IH (JSXExpressionContainer expr) expr); [now left |].
      simpl. right. apply subnodes_self. }
    generalize dependent (rewritten expr). intros r _ He.
    simpl. exact He.
Qed.

(** ** The calls of a run *)

(** X8.  A run makes no call to the parser or the generator exactly when
    the extension is not an accepted one; otherwise it calls the parser
    once, on the text it was given, and then the generator at most once.
    The generator is called exactly when the hook returns a result, with a
    tree that differs from the parsed one, [retainLines] on and the text
    the hook was given: a file the hook leaves alone is never printed, and
    neither is one on which the scope registration throws. *)
Theorem transform_host_calls :
  forall (SourceMap : Type)
         (parse : string -> option node)
         (crawl : node -> bool)
         (generate : node -> bool -> string -> Result.t SourceMap)
         (code id : string),
  let calls := hostCalls parse crawl generate (transform code id) in
  (calls = [] <-> ~ acceptedExtension id)
  /\ (calls = []
      \/ calls = [ParseCall code]
      \/ exists ast, parse code = Some ast /\ rewritten ast <> ast /\
           calls = [ParseCall code; GenerateCall (rewritten ast) true code])
  /\ (existsb isGenerateCall calls = true <->
      exists r, run parse crawl generate (transform code id) = Returned (Some r))
  /\ (existsb isGenerateCall calls = true <->
      run parse crawl generate (transform code id) <> Returned None
      /\ run parse crawl generate (transform code id) <> Thrown).
Proof.
  intros SourceMap parse crawl generate code id calls. subst calls.
  assert (Hgate : negb (endsWith id ".jsx") && negb (endsWith id ".tsx") = true
                  <-> ~ acceptedExtension id).
  { unfold acceptedExtension. rewrite <- !endsWith_iff.
    destruct (endsWith id ".jsx"), (endsWith id ".tsx"); simpl;
      split; intros H; try discriminate; try reflexivity;
      try (exfalso; apply H; auto; fail).
    intros [H' | H']; discriminate. }
  unfold transform.
  destruct (negb (endsWith id ".jsx") && negb (endsWith id ".tsx")).
  { split; [split; [intros _; now apply Hgate | reflexivity] |].
    split; [now left |]. simpl.
    split; split; try discriminate; try (intros [r Hr]; discriminate).
    intros [H _]. congruence. }
  assert (Hacc : ~ ~ acceptedExtension id).
  { intros H. apply Hgate in H. discriminate. }
  simpl. destruct (parse code) as [ast |] eqn:Hparse.
  2: { split; [split; [discriminate | intros H; contradiction] |].
       split; [right; now left |]. simpl.
       split; split; try discriminate; try (intros [r Hr]; discriminate).
       intros [H _]. congruence. }
  simpl. destruct (crawl ast) eqn:Hcrawl; simpl.
  2: { split; [split; [discriminate | intros H; contradiction] |].
       split; [right; now left |].
       split; split; try discriminate; try (intros [r Hr]; discriminate).
       intros [_ H]. congruence. }
  rewrite traverse_state. simpl.
  destruct (changedBy ast) eqn:Hc; simpl.
  - split; [split; [discriminate | intros H; contradiction] |]. split.
    + right. right. exists ast. repeat split.
      intros Heq. apply changedBy_false_unchanged in Heq. congruence.
    + split; split; try discriminate; try reflexivity.
      * intros _. eexists. reflexivity.
      * intros _. split; discriminate.
  - split; [split; [discriminate | intros H; contradiction] |].
    split; [right; now left |].
    split; split; try discriminate; try (intros [r Hr]; discriminate).
    intros [H _]. congruence.
Qed.

(** X9.  The identifier decides only whether the hook runs: for the same
    text, any two identifiers with an accepted extension give the same
    computation, a [.jsx] one and a [.tsx] one included. *)
Theorem transform_identifier_only_gates :
  forall (SourceMap : Type) (code id id' : string),
  acceptedExtension id -> acceptedExtension id' ->
  transform (SourceMap := SourceMap) code id = transform code id'.
Proof.
  intros SourceMap code id id' Hid Hid'.
  assert (Hgate : forall i, acceptedExtension i ->
            negb (endsWith i ".jsx") && negb (endsWith i ".tsx") = false).
  { intros i [H | H]; apply endsWith_iff in H; rewrite H; simpl;
      [reflexivity | apply andb_false_r]. }
  unfold transform. now rewrite (Hgate id Hid), (Hgate id' Hid').
Qed.

(** A [.jsx] and a [.tsx] identifier. *)
Lemma transform_identifier_only_gates_witness :
  acceptedExtension "src/App.jsx" /\ acceptedExtension "pages/index.tsx"
  /\ transform (SourceMap := unit) sampleSource "src/App.jsx"
     = transform sampleSource "pages/index.tsx".
Proof.
  assert (H1 : acceptedExtension "src/App.jsx") by (left; now exists "src/App").
  assert (H2 : acceptedExtension "pages/index.tsx") by (right; now exists "pages/index").
  split; [exact H1 |]. split; [exact H2 |].
  apply (transform_identifier_only_gates unit sampleSource _ _ H1 H2).
Defined.

(** ** The bounds of the "on" rule *)

(** X10.  The length test of the "on" rule bites for one name only.  A
    namespaced attribute whose namespace begins with "on" is always left
    alone, since the colon already makes the joined name longer than two
    characters; the simple name "on" itself is not exempt, and is wrapped
    like any other attribute when its expression contains a call. *)
Theorem on_rule_bounds :
  (forall (rest local : string) (value : option node) (changed : bool),
      JSXAttribute_visitor (JSXNamespacedName ("on" ++ rest) local) value changed
      = (JSXAttribute (JSXNamespacedName ("on" ++ rest) local) value, changed))
  /\ (forall (expr : node) (changed : bool),
         shouldSkip "on" expr
         = (isArrowFunctionExpression expr || isFunctionExpression expr)
         /\ (containsCall expr = true ->
             isArrowFunctionExpression expr = false ->
             isFunctionExpression expr = false ->
             JSXAttribute_visitor (JSXIdentifier "on")
               (Some (JSXExpressionContainer expr)) changed
             = (wrapped (JSXIdentifier "on") expr, true))).
Proof.
  split.
  - intros rest local value changed.
    destruct value as [[] |]; try reflexivity.
    rewrite JSXAttribute_visitor_container.
    replace (wraps (JSXNamespacedName ("on" ++ rest) local) expression) with false;
      [reflexivity |].
    unfold wraps, shouldSkip. cbn [attrNameOf].
    replace (startsWith (("on" ++ rest) ++ ":" ++ local) "on") with true
      by (symmetry; apply startsWith_iff; exists (rest ++ ":" ++ local); reflexivity).
    replace (2 <? String.length (("on" ++ rest) ++ ":" ++ local))%nat with true.
    + now rewrite andb_false_r.
    + symmetry. apply Nat.ltb_lt.
      rewrite !length_append. simpl. lia.
  - intros expr changed.
    assert (Hs : shouldSkip "on" expr
                 = (isArrowFunctionExpression expr || isFunctionExpression expr)).
    { unfold shouldSkip. simpl.
      destruct (isArrowFunctionExpression expr); [reflexivity |].
      destruct (isFunctionExpression expr); reflexivity. }
    split; [exact Hs |].
    intros Hcall Harrow Hfun.
    rewrite JSXAttribute_visitor_container.
    replace (wraps (JSXIdentifier "on") expr) with true; [reflexivity |].
    symmetry. apply wraps_true_iff. repeat split.
    + intros ->. discriminate.
    + cbn [attrNameOf]. now rewrite Hs, Harrow, Hfun.
    + exact Hcall.
Qed.

(** ** Attributes and nothing else *)

Lemma flat_map_of_flat_map {A B C : Type} (g : B -> list C) (h : A -> list B)
      (l : list A) :
  flat_map g (flat_map h l) = flat_map (fun x => flat_map g (h x)) l.
Proof.
  induction l as [| a l IH]; simpl; [reflexivity |].
  now rewrite flat_map_app, IH.
Qed.

Lemma attributeName_mapChildren (f : node -> node) (n : node) :
  attributeName (mapChildren f n) = attributeName n.
Proof. destruct n; reflexivity. Qed.

(** X11.  The walk removes no attribute, adds none and renames none: the
    names of the attributes of the tree it returns are those of the tree it
    was given, in the same order. *)
Theorem attributeNames_preserved : forall (n : node) (changed : bool),
  attributeNames (fst (traverse n changed)) = attributeNames n.
Proof.
  intros n changed. rewrite traverse_state. cbn [fst]. unfold attributeNames.
  induction n as [n IH] using node_subnodes_ind.
  destruct (rewritten_cases n) as [Hn | (name & expr & -> & Hw & Hn)]; rewrite Hn.
  - rewrite (subnodes_unfold (mapChildren rewritten n)), (subnodes_unfold n).
    rewrite childNodes_mapChildren, flat_map_of_map.
    cbn [flat_map]. rewrite attributeName_mapChildren. f_equal.
    rewrite !flat_map_of_flat_map.
    apply flat_map_ext_in. intros c Hc.
    apply (IH c c Hc), subnodes_self.
  - assert (He : flat_map attributeName (subnodes (rewritten expr))
                 = flat_map attributeName (subnodes expr)).
    { apply (IH (JSXExpressionContainer expr) expr); [now left |].
      simpl. right. apply subnodes_self. }
    generalize dependent (rewritten expr). intros r _ He.
    simpl. now rewrite He.
Qed.

Lemma qualifies_attributeName (x : node) :
  qualifies x = true -> attributeName x <> [].
Proof. destruct x; discriminate. Qed.

(** X12.  Only attributes are rewritten: a tree without any attribute goes
    through the walk untouched, with the flag as it was, whatever calls
    there are in element children or anywhere else. *)
Theorem no_attribute_untouched : forall (n : node) (changed : bool),
  attributeNames n = [] -> traverse n changed = (n, changed).
Proof.
  intros n changed Hnone.
  assert (Hflag : changedBy n = false).
  { rewrite changedBy_subnodes.
    destruct (existsb qualifies (subnodes n)) eqn:E; [| reflexivity].
    apply existsb_exists in E. destruct E as (x & Hx & Hq).
    apply qualifies_attributeName in Hq.
    destruct (attributeName x) as [| a l] eqn:Ea; [congruence |].
    assert (Ha : In a (attributeNames n)).
    { unfold attributeNames. apply in_flat_map. exists x.
      split; [exact Hx |]. rewrite Ea. now left. }
    rewrite Hnone in Ha. contradiction. }
  rewrite traverse_state, Hflag, orb_false_r.
  now rewrite (rewritten_unchanged n Hflag).
Qed.

(** Calls in the children of an element. *)
Lemma no_attribute_untouched_witness :
  attributeNames sampleChildrenOnly = []
  /\ (exists c, In c (subnodes sampleChildrenOnly) /\ isCallExpression c = true)
  /\ traverse sampleChildrenOnly false = (sampleChildrenOnly, false).
Proof.
  assert (Hnone : attributeNames sampleChildrenOnly = []) by reflexivity.
  split; [exact Hnone |]. split.
  - exists (CallExpression (Identifier "count") []).
    split; [vm_compute; tauto | reflexivity].
  - apply (no_attribute_untouched sampleChildrenOnly false Hnone).
Defined.

(** ** An exception that is not caught *)

(** X13.  Only the parser sits inside the [try].  For a file that parsed,
    the hook throws exactly when Babel's scope registration throws; it
    then returns neither [null] nor a result, and the generator is not
    called. *)
Theorem transform_throws_iff_crawl_throws :
  forall (SourceMap : Type)
         (parse : string -> option node)
         (crawl : node -> bool)
         (generate : node -> bool -> string -> Result.t SourceMap)
         (code id : string) (ast : node),
  acceptedExtension id ->
  parse code = Some ast ->
  (run parse crawl generate (transform code id) = Thrown <-> crawl ast = false)
  /\ (crawl ast = false ->
      hostCalls parse crawl generate (transform code id) = [ParseCall code]).
Proof.
  intros SourceMap parse crawl generate code id ast Hacc Hparse.
  assert (Hext : endsWith id ".jsx" = true \/ endsWith id ".tsx" = true).
  { destruct Hacc as [H | H]; [left | right]; now apply endsWith_iff. }
  split.
  - destruct (crawl ast) eqn:Hcrawl.
    + rewrite (transform_parsed SourceMap parse crawl generate code id ast
                 Hext Hparse Hcrawl).
      split; discriminate.
    + rewrite (transform_crawl_throws SourceMap parse crawl generate code id ast
                 Hext Hparse Hcrawl).
      split; reflexivity.
  - intros Hcrawl. unfold transform.
    replace (negb (endsWith id ".jsx") && negb (endsWith id ".tsx")) with false
      by (destruct Hext as [-> | ->]; simpl; now rewrite ?andb_false_r).
    simpl. rewrite Hparse. simpl. now rewrite Hcrawl.
Qed.

(** The file with the duplicate declaration. *)
Lemma transform_throws_iff_crawl_throws_witness :
  acceptedExtension "App.tsx"
  /\ sampleParse duplicateSource = Some duplicateFile
  /\ (run sampleParse sampleCrawl sampleGenerate (transform duplicateSource "App.tsx")
      = Thrown <-> sampleCrawl duplicateFile = false)
  /\ (sampleCrawl duplicateFile = false ->
      hostCalls sampleParse sampleCrawl sampleGenerate
        (transform duplicateSource "App.tsx") = [ParseCall duplicateSource]).
Proof.
  assert (Hacc : acceptedExtension "App.tsx") by (right; now exists "App").
  assert (Hparse : sampleParse duplicateSource = Some duplicateFile) by reflexivity.
  split; [exact Hacc |]. split; [exact Hparse |].
  exact (transform_throws_iff_crawl_throws (option string) sampleParse sampleCrawl
           sampleGenerate duplicateSource "App.tsx" duplicateFile Hacc Hparse).
Defined.
